(** * AutoGenAgent: chunking, summary storage and the summarization pipeline

    A shallow embedding of
      - [agents/content_processor_agent.py]  (cleaning and chunking),
      - [storage/summary_storage.py]         (the URL-keyed summary cache),
      - [agents/web_fetcher_agent.py]        (the page cache in front of the fetcher),
      - [agents/agent_factory.py]            (the orchestrator),
    followed by the properties of the specification that concern them.

    Python [str] values are sequences of Unicode code points and are
    modelled as [list N].  Dictionaries are [gmap]s.  The tokenizer
    (tiktoken), the HTTP fetcher, the LLM agents, the clock, [uuid4] and
    [md5] are collaborators outside the repository: they are parameters of
    the model.  Files are modelled as finite maps from a name to the text
    written last; text-mode newline translation and encoding errors are
    outside the model. *)

From Stdlib Require Import ZArith NArith Ascii String DecimalString DecimalZ.
From stdpp Require Import gmap list.

Local Open Scope Z_scope.

(** ** Python strings *)

Abbreviation str := (list N).

Module Py.

(** An ASCII literal as a [str]. *)
Fixpoint lit (s : string) : str :=
  match s with
  | EmptyString => []
  | String a r => N_of_ascii a :: lit r
  end.

Definition NL : N := 10%N.
Definition SP : N := 32%N.

Definition between (lo hi c : N) : bool := ((lo <=? c) && (c <=? hi))%N.

(** [str.isspace] on one code point; the regular-expression class [\s]
    of a [str] pattern is the same set. *)
Definition isspace (c : N) : bool :=
  between 0x09 0x0d c || between 0x1c 0x20 c
  || (c =? 0x85)%N || (c =? 0xa0)%N || (c =? 0x1680)%N
  || between 0x2000 0x200a c
  || (c =? 0x2028)%N || (c =? 0x2029)%N || (c =? 0x202f)%N
  || (c =? 0x205f)%N || (c =? 0x3000)%N.

Fixpoint lstrip (s : str) : str :=
  match s with
  | [] => []
  | c :: r => if isspace c then lstrip r else s
  end.

Definition rstrip (s : str) : str := rev (lstrip (rev s)).

(** [s.strip()] *)
Definition strip (s : str) : str := rstrip (lstrip s).

(** Truth value of a [str]: non-empty. *)
Definition truthy (s : str) : bool :=
  match s with [] => false | _ => true end.

Fixpoint startswith (s p : str) : bool :=
  match p, s with
  | [], _ => true
  | _ :: _, [] => false
  | a :: p', b :: s' => (a =? b)%N && startswith s' p'
  end.

(** [s.split(sep)] for a non-empty [sep]: left to right, occurrences do
    not overlap.  [skip] counts the code points of a separator that are
    still to be passed over, [cur] is the piece being built (reversed). *)
Fixpoint split_go (sep : str) (skip : nat) (cur : str) (s : str) : list str :=
  match s with
  | [] => [rev cur]
  | c :: r =>
      match skip with
      | S k => split_go sep k cur r
      | O =>
          if startswith s sep
          then rev cur :: split_go sep (Nat.pred (length sep)) [] r
          else split_go sep O (c :: cur) r
      end
  end.

Definition split (s sep : str) : list str := split_go sep O [] s.

(** [sep.join(parts)] *)
Fixpoint join (sep : str) (parts : list str) : str :=
  match parts with
  | [] => []
  | [p] => p
  | p :: rest => p ++ sep ++ join sep rest
  end.

(** [s.replace(a, b)] for single code points. *)
Definition replace1 (a b : N) (s : str) : str :=
  map (fun c => if (c =? a)%N then b else c) s.

(** Decimal rendering of an [int], as in an f-string. *)
Definition str_of_Z (z : Z) : str := lit (NilZero.string_of_int (Z.to_int z)).
Definition str_of_nat (n : nat) : str := str_of_Z (Z.of_nat n).

(** *** Exceptions *)

Inductive exn :=
  | ValueError (msg : str)
  | Exception (msg : str).

Inductive Exc (A : Type) :=
  | OK (a : A)
  | Raise (e : exn).
Arguments OK {A} a.
Arguments Raise {A} e.

Definition bind {A B} (m : Exc A) (k : A -> Exc B) : Exc B :=
  match m with
  | OK a => k a
  | Raise e => Raise e
  end.

(** A [for] loop whose body may raise. *)
Fixpoint for_each {A S} (body : S -> A -> Exc S) (xs : list A) (s : S) : Exc S :=
  match xs with
  | [] => OK s
  | x :: r => bind (body s x) (for_each body r)
  end.

(** [range(0, stop, step)] *)
Definition range (stop : nat) (step : Z) : Exc (list nat) :=
  if step =? 0 then Raise (ValueError (lit "range() arg 3 must not be zero"))
  else if step <? 0 then OK []
  else
    let k := Z.to_nat step in
    OK (map (fun j => (j * k)%nat) (seq 0 ((stop + k - 1) / k)%nat)).

End Py.

Notation "'let*' x ':=' m 'in' k" := (Py.bind m (fun x => k))
  (at level 10, x name, m at level 100, k at level 200).

(** ** Regular expressions of [content_processor_agent.py] *)

Module Re.
Import Py.

(** [re.sub(r'\s+', ' ', s)]: every maximal run of whitespace becomes one
    space.  [in_run] tells that the previous code point was whitespace. *)
Fixpoint sub_ws_go (in_run : bool) (s : str) : str :=
  match s with
  | [] => []
  | c :: r =>
      if isspace c
      then (if in_run then sub_ws_go true r else SP :: sub_ws_go true r)
      else c :: sub_ws_go false r
  end.

Definition sub_ws (s : str) : str := sub_ws_go false s.

(** The complemented class of line 40: U+4E00..U+9FA5, ASCII letters and
    digits, the listed ASCII and full-width punctuation, hyphen, both
    quotes, and whitespace. *)
Definition kept_punct : list N :=
  lit ".,;:!?()[]{}-'" ++ [0x22; 0xff0c; 0x3002; 0xff1b; 0xff1a; 0xff01; 0xff1f;
                            0xff08; 0xff09; 0x3010; 0x3011; 0x300c; 0x300d;
                            0x300e; 0x300f]%N.

Definition kept (c : N) : bool :=
  between 0x4e00 0x9fa5 c
  || between 97 122 c || between 65 90 c || between 48 57 c
  || existsb (N.eqb c) kept_punct
  || isspace c.

(** [re.sub(r'[^...]+', '', s)]: the code points outside the class are
    deleted. *)
Definition sub_unwanted (s : str) : str := List.filter kept s.

Fixpoint take_while (f : N -> bool) (s : str) : str :=
  match s with
  | [] => []
  | c :: r => if f c then c :: take_while f r else []
  end.

Definition count_nl (s : str) : nat := length (List.filter (N.eqb NL) s).

(** Length of the prefix of [s] that ends with its last newline
    (0 when there is none). *)
Fixpoint upto_last_nl (s : str) : nat :=
  match s with
  | [] => O
  | c :: r =>
      match upto_last_nl r with
      | O => if (c =? NL)%N then 1%nat else O
      | S n => S (S n)
      end
  end.

(** A match of [\n\s*\n\s*\n+] at the head of [s] and its length.  Every
    code point the pattern consumes is whitespace, so a match lies in the
    maximal whitespace run at the head of [s]; it needs that run to start
    with a newline and to hold three of them; both [\s*] being greedy, the
    backtracking search first succeeds with the final [\n+] on the last
    newline of the run. *)
Definition blank_lines_match (s : str) : option nat :=
  let run := take_while isspace s in
  match s with
  | c :: _ =>
      if (c =? NL)%N && (3 <=? count_nl run)%nat then Some (upto_last_nl run)
      else None
  | [] => None
  end.

(** [re.sub(r'\n\s*\n\s*\n+', '\n\n', s)] *)
Fixpoint sub_blank_lines_go (skip : nat) (s : str) : str :=
  match s with
  | [] => []
  | c :: r =>
      match skip with
      | S k => sub_blank_lines_go k r
      | O =>
          match blank_lines_match s with
          | Some n => NL :: NL :: sub_blank_lines_go (Nat.pred n) r
          | None => c :: sub_blank_lines_go O r
          end
      end
  end.

Definition sub_blank_lines (s : str) : str := sub_blank_lines_go O s.

(** The class [[.!?。！？]]. *)
Definition sentence_end (c : N) : bool :=
  existsb (N.eqb c) (lit ".!?" ++ [0x3002; 0xff01; 0xff1f]%N).

(** [re.split(r'(?<=[.!?。！？])\s+', s)].  A separator is a maximal
    whitespace run that follows a sentence terminator.  [after_end] tells
    that the previous code point was a terminator, [in_sep] that a
    separator is being passed over, [cur] is the piece being built
    (reversed). *)
Fixpoint split_sentences_go (after_end in_sep : bool) (cur : str) (s : str)
  : list str :=
  match s with
  | [] => [rev cur]
  | c :: r =>
      if isspace c then
        if in_sep then split_sentences_go false true cur r
        else if after_end then rev cur :: split_sentences_go false true [] r
        else split_sentences_go false false (c :: cur) r
      else split_sentences_go (sentence_end c) false (c :: cur) r
  end.

Definition split_sentences (s : str) : list str :=
  split_sentences_go false false [] s.

End Re.

(** ** [agents/content_processor_agent.py] *)

(** The tiktoken encoding held by [ContentProcessorAgent.tokenizer]. *)
Record Tokenizer := {
  encode : str -> list N;
  decode : list N -> str
}.

Module ContentProcessorAgent.
Import Py.

Definition _clean_content (content : str) : str :=
  let content := Re.sub_blank_lines content in
  let content := Re.sub_unwanted content in
  let content := Re.sub_ws content in
  strip content.

(** The three variables of the loop of [_split_into_chunks]. *)
Record acc := {
  chunks : list str;
  current_chunk : list str;
  current_length : nat
}.

Definition NLNL : str := [NL; NL].

Section Chunker.
Variable tk : Tokenizer.
Variable CHUNK_SIZE : Z.

(** [len(self.tokenizer.encode(text))] *)
Definition n_tokens (text : str) : nat := length (encode tk text).

(** Lines 85-88: the windows of an oversized sentence. *)
Definition hard_split (sent_tokens : list N) : Exc (list str) :=
  let* idx := range (length sent_tokens) CHUNK_SIZE in
  OK (map (fun i => decode tk (take (Z.to_nat CHUNK_SIZE) (drop i sent_tokens))) idx).

(** Lines 80-97: the body of the loop over sentences. *)
Definition sentence_step (a : acc) (sentence : str) : Exc acc :=
  let sent_tokens := encode tk sentence in
  let sent_length := length sent_tokens in
  if CHUNK_SIZE <? Z.of_nat sent_length then
    let* windows := hard_split sent_tokens in
    OK {| chunks := chunks a ++ windows;
          current_chunk := current_chunk a;
          current_length := current_length a |}
  else if CHUNK_SIZE <? Z.of_nat (current_length a + sent_length) then
    OK {| chunks := chunks a ++ [join NLNL (current_chunk a)];
          current_chunk := [sentence];
          current_length := sent_length |}
  else
    OK {| chunks := chunks a;
          current_chunk := current_chunk a ++ [sentence];
          current_length := (current_length a + sent_length)%nat |}.

(** Lines 72-106: the body of the loop over paragraphs. *)
Definition paragraph_step (a : acc) (para : str) : Exc acc :=
  let para_length := n_tokens para in
  if CHUNK_SIZE <? Z.of_nat para_length then
    for_each sentence_step (Re.split_sentences para) a
  else if CHUNK_SIZE <? Z.of_nat (current_length a + para_length) then
    OK {| chunks := chunks a ++ [join NLNL (current_chunk a)];
          current_chunk := [para];
          current_length := para_length |}
  else
    OK {| chunks := chunks a;
          current_chunk := current_chunk a ++ [para];
          current_length := (current_length a + para_length)%nat |}.

(** Line 65 *)
Definition paragraphs (content : str) : list str :=
  List.filter (fun p => truthy (strip p)) (split content NLNL).

(** Lines 109-112 *)
Definition flush (a : acc) : list str :=
  match current_chunk a with
  | [] => chunks a
  | _ :: _ => chunks a ++ [join NLNL (current_chunk a)]
  end.

Definition _split_into_chunks (content : str) : Exc (list str) :=
  if Z.of_nat (n_tokens content) <=? CHUNK_SIZE then OK [content]
  else
    let* a := for_each paragraph_step (paragraphs content)
                {| chunks := []; current_chunk := []; current_length := O |} in
    OK (flush a).

Definition process_content (content : str) : Exc (list str) :=
  _split_into_chunks (_clean_content content).

End Chunker.

End ContentProcessorAgent.

(** ** Collaborators outside the repository *)

(** What an agent call hands back (lines 91-100 and 113-122 of
    [agent_factory.py] tell these shapes apart): a [str]; an object with an
    optional [content] attribute and an optional [message.content]; a
    [dict].  [as_str] is what [str(obj)] gives. *)
Inductive Response :=
  | RStr (s : str)
  | RObj (content : option str) (message_content : option str) (as_str : str)
  | RDict (d : gmap str str) (as_str : str).

(** The world outside the process: [World] is its state, [PyFloat] the
    type of [time.time()]. *)
Record Host {World PyFloat : Type} := {
  md5_hexdigest : str -> str;
  time_time : World -> PyFloat * World;
  int_of_float : PyFloat -> Z;
  strftime_now : World -> str * World;
  uuid4_hex : World -> str * World;
  fetch : World -> str -> Py.Exc str * World;
  generate_summary : World -> str -> Py.Exc Response * World;
  integrate_summaries : World -> list str -> str -> Py.Exc Response * World
}.
Arguments Host : clear implicits.

(** ** [storage/summary_storage.py] *)

Module SummaryStorage.
Import Py.

Record SummaryMetadata {PyFloat : Type} := {
  id : str;
  url : str;
  timestamp : str;
  timestamp_unix : PyFloat;
  preview : str
}.
Arguments SummaryMetadata : clear implicits.

(** The dictionary returned by [get_summary_by_url]. *)
Record SummaryInfo {PyFloat : Type} := {
  info_id : str;
  info_url : str;
  info_timestamp : str;
  info_timestamp_unix : PyFloat;
  info_preview : str;
  content : str
}.
Arguments SummaryInfo : clear implicits.

(** The storage directory: [summary_index.json] ([None] when it is
    missing or does not parse) and the other files, by name. *)
Record Store {PyFloat : Type} := {
  index_file : option (gmap str (SummaryMetadata PyFloat));
  files : gmap str str
}.
Arguments Store : clear implicits.

Section Storage.
Context {World PyFloat : Type} (host : Host World PyFloat).

Definition _load_index (st : Store PyFloat) : gmap str (SummaryMetadata PyFloat) :=
  match index_file st with
  | Some index => index
  | None => ∅
  end.

Definition _get_summary_path (summary_id : str) : str :=
  summary_id ++ lit ".txt".

Definition _url_to_id (w : World) (url : str) : str * World :=
  let url_hash := take 8 (md5_hexdigest host url) in
  let '(t, w) := time_time host w in
  let '(u, w) := uuid4_hex host w in
  (url_hash ++ lit "-" ++ str_of_Z (int_of_float host t) ++ lit "-" ++ take 4 u, w).

Definition save_summary (st : Store PyFloat) (w : World) (url content : str)
  : str * Store PyFloat * World :=
  let index := _load_index st in
  let existing_id :=
    match index !! url with
    | Some m => Some (id m)
    | None => None
    end in
  let '(summary_id, w) :=
    match existing_id with
    | Some i => if truthy i then (i, w) else _url_to_id w url
    | None => _url_to_id w url
    end in
  let summary_path := _get_summary_path summary_id in
  let files' := <[summary_path := content]> (files st) in
  let '(timestamp, w) := strftime_now host w in
  let '(timestamp_unix, w) := time_time host w in
  let preview := replace1 NL SP (take 200 content) in
  let index := <[url := {| id := summary_id; url := url;
                           timestamp := timestamp;
                           timestamp_unix := timestamp_unix;
                           preview := preview |}]> index in
  (summary_id, {| index_file := Some index; files := files' |}, w).

Definition get_summary_by_url (st : Store PyFloat) (url : str)
  : option (SummaryInfo PyFloat) :=
  let index := _load_index st in
  match index !! url with
  | None => None
  | Some metadata =>
      let summary_id := id metadata in
      let summary_path := _get_summary_path summary_id in
      match files st !! summary_path with
      | None => None
      | Some text =>
          Some {| info_id := summary_id; info_url := url;
                  info_timestamp := timestamp metadata;
                  info_timestamp_unix := timestamp_unix metadata;
                  info_preview := preview metadata;
                  content := text |}
      end
  end.

End Storage.
End SummaryStorage.

(** ** [agents/web_fetcher_agent.py] *)

Module WebFetcherAgent.
Import Py.

(** The page directory: the page files by name, and [content_index.json]. *)
Record Pages := {
  content_files : gmap str str;
  content_index_file : option (gmap str str)
}.

Section Fetcher.
Context {World PyFloat : Type} (host : Host World PyFloat).

Definition _get_content_path (url : str) : str :=
  md5_hexdigest host url ++ lit ".txt".

Definition _update_content_index (pg : Pages) (url file_path : str) : Pages :=
  let index := default ∅ (content_index_file pg) in
  {| content_files := content_files pg;
     content_index_file := Some (<[url := file_path]> index) |}.

(** [None] is Python's [None]. *)
Definition fetch_webpage (pg : Pages) (w : World) (url : str)
  : option str * Pages * World :=
  let content_path := _get_content_path url in
  match content_files pg !! content_path with
  | Some text => (Some text, pg, w)
  | None =>
      match fetch host w url with
      | (OK text, w) =>
          let pg := {| content_files := <[content_path := text]> (content_files pg);
                       content_index_file := content_index_file pg |} in
          (Some text, _update_content_index pg url content_path, w)
      | (Raise _, w) => (None, pg, w)
      end
  end.

End Fetcher.
End WebFetcherAgent.

(** ** [agents/agent_factory.py] *)

Module SummarizationAgentTeam.
Import Py.

(** Lines 91-100: the text of a response. *)
Definition to_text (obj : Response) : str :=
  match obj with
  | RStr s => s
  | RObj (Some c) _ _ => c
  | RObj None (Some c) _ => c
  | RObj None None s => s
  | RDict d s =>
      match d !! lit "content" with
      | Some c => c
      | None => s
      end
  end.

(** Line 104: the marker that stands for the summary of chunk [n]. *)
Definition error_marker (n : nat) : str :=
  lit "[" ++ [0x5757%N] ++ lit " " ++ str_of_nat n ++ lit " "
  ++ [0x5904; 0x7406; 0x9519; 0x8bef]%N ++ lit "]".

(** Line 79 *)
Definition fetch_error (url : str) : exn :=
  ValueError ([0x65e0; 0x6cd5; 0x83b7; 0x53d6; 0x7f51; 0x9875; 0x5185; 0x5bb9]%N
              ++ lit ": " ++ url).

(** The calls the orchestrator makes to its agents and to the storage. *)
Inductive Call :=
  | FetchWebpage (url : str)
  | ProcessContent (webpage_content : str)
  | GenerateSummary (chunk : str)
  | IntegrateSummaries (chunk_summaries : list str) (url : str)
  | SaveSummary (url final_summary : str).

Record Team {PyFloat : Type} := {
  storage : SummaryStorage.Store PyFloat;
  web_fetcher : WebFetcherAgent.Pages
}.
Arguments Team : clear implicits.

Definition enumerate {A} (l : list A) : list (nat * A) :=
  combine (seq 0 (length l)) l.

Section Orchestrator.
Context {World PyFloat : Type} (host : Host World PyFloat).
Variable tk : Tokenizer.
Variable CHUNK_SIZE : Z.

(** Lines 86-104: the body of the loop over the chunks. *)
Definition summarize_step (st : list str * World) (ic : nat * str)
  : list str * World :=
  let '(chunk_summaries, w) := st in
  let '(i, chunk) := ic in
  let '(r, w) := generate_summary host w chunk in
  let summary :=
    match r with
    | OK summary_obj => to_text summary_obj
    | Raise _ => error_marker (i + 1)
    end in
  (chunk_summaries ++ [summary], w).

Definition summarize_each (w : World) (content_chunks : list str)
  : list str * World :=
  fold_left summarize_step (enumerate content_chunks) ([], w).

(** Lines 107-125 *)
Definition integrate (w : World) (chunk_summaries : list str) (url : str)
  : str * World * list Call :=
  match chunk_summaries with
  | [summary] => (summary, w, [])
  | _ =>
      let '(r, w) := integrate_summaries host w chunk_summaries url in
      let final_summary :=
        match r with
        | OK integrated_obj => to_text integrated_obj
        | Raise _ => join ContentProcessorAgent.NLNL chunk_summaries
        end in
      (final_summary, w, [IntegrateSummaries chunk_summaries url])
  end.

Definition start_summarization (team : Team PyFloat) (w : World) (url : str)
  : Exc str * Team PyFloat * World * list Call :=
  match SummaryStorage.get_summary_by_url (storage team) url with
  | Some cached_summary => (OK (SummaryStorage.content cached_summary), team, w, [])
  | None =>
      let '(webpage_content, pages, w) :=
        WebFetcherAgent.fetch_webpage host (web_fetcher team) w url in
      let team := {| storage := storage team; web_fetcher := pages |} in
      match webpage_content with
      | None | Some [] => (Raise (fetch_error url), team, w, [FetchWebpage url])
      | Some webpage_content =>
          match ContentProcessorAgent.process_content tk CHUNK_SIZE webpage_content with
          | Raise e =>
              (Raise e, team, w, [FetchWebpage url; ProcessContent webpage_content])
          | OK content_chunks =>
              let '(chunk_summaries, w) := summarize_each w content_chunks in
              let '(final_summary, w, integration) := integrate w chunk_summaries url in
              let '(_, store, w) :=
                SummaryStorage.save_summary host (storage team) w url final_summary in
              (OK final_summary,
               {| storage := store; web_fetcher := pages |}, w,
               [FetchWebpage url; ProcessContent webpage_content]
               ++ map GenerateSummary content_chunks
               ++ integration ++ [SaveSummary url final_summary])
          end
      end
  end.

End Orchestrator.
End SummarizationAgentTeam.

(** ** [storage/summary_storage.py]: lookup by id, and deletion *)

Module SummaryStorageById.
Import Py SummaryStorage.

Section ById.
Context {PyFloat : Type}.

(** [index.items()]: a [dict] is iterated in the order of insertion,
    which the map does not record, so the order is a parameter. *)
Variable items :
  gmap str (SummaryMetadata PyFloat) -> list (str * SummaryMetadata PyFloat).

(** Lines 205-213 and 265-273: the first URL whose record has the id;
    a URL that is not there, or an empty one, counts as not found. *)
Definition target_url_of (index : gmap str (SummaryMetadata PyFloat))
    (summary_id : str) : option str :=
  match List.find (fun '(_, metadata) => bool_decide (id metadata = summary_id))
                  (items index) with
  | Some (target_url, _) => if truthy target_url then Some target_url else None
  | None => None
  end.

Definition get_summary_by_id (st : Store PyFloat) (summary_id : str)
  : option (SummaryInfo PyFloat) :=
  match target_url_of (_load_index st) summary_id with
  | None => None
  | Some target_url => get_summary_by_url st target_url
  end.

Definition delete_summary (st : Store PyFloat) (url_or_id : str)
  : bool * Store PyFloat :=
  let index := _load_index st in
  let is_id :=
    negb (existsb (fun '(stored_url, _) => bool_decide (stored_url = url_or_id))
                  (items index)) in
  let target :=
    if is_id then target_url_of index url_or_id else Some url_or_id in
  match target with
  | None => (false, st)
  | Some url =>
      match index !! url with
      | None => (false, st)
      | Some metadata =>
          let summary_path := _get_summary_path (id metadata) in
          (true, {| index_file := Some (delete url index);
                    files := delete summary_path (files st) |})
      end
  end.

End ById.
End SummaryStorageById.

(** ** [web_content/webpage_content_fetcher.py]: the retry loop *)

Module WebpageContentFetcher.
Import Py.

(** The exceptions of [requests] that [fetch] tells apart (the last one
    stands for any other exception), each with its [str(e)]. *)
Inductive RequestError :=
  | Timeout (msg : str)
  | ConnectionError (msg : str)
  | HTTPError (msg : str)
  | OtherError (msg : str).

(** What [fetch] raises, with the message. *)
Inductive FetchError :=
  | FetchValueError (msg : str)
  | FetchTimeoutError (msg : str)
  | FetchConnectionError (msg : str)
  | FetchException (msg : str).

(** The collaborators of [fetch]: the URL check (built on [urlparse]),
    the HTTP session ([session.get], [raise_for_status] and
    [response.text] together), [time.sleep], and the extraction of the
    text from the HTML (built on BeautifulSoup). *)
Record Network {World : Type} := {
  _is_valid_url : str -> bool;
  session_get : World -> str -> (RequestError + str) * World;
  sleep : World -> Z -> World;
  _process_content : str -> str -> str
}.
Arguments Network : clear implicits.

(** Lines 82-97: the error kept in [last_error]. *)
Definition last_error_of (e : RequestError) : FetchError :=
  match e with
  | Timeout msg =>
      FetchTimeoutError ([0x8bf7; 0x6c42; 0x8d85; 0x65f6; 0x3a; 0x20]%N ++ msg)
  | ConnectionError msg =>
      FetchConnectionError ([0x8fde; 0x63a5; 0x9519; 0x8bef; 0x3a; 0x20]%N ++ msg)
  | HTTPError msg =>
      FetchException ([0x48; 0x54; 0x54; 0x50; 0x9519; 0x8bef; 0x3a; 0x20]%N ++ msg)
  | OtherError msg =>
      FetchException ([0x83b7; 0x53d6; 0x7f51; 0x9875; 0x5185; 0x5bb9; 0x65f6; 0x51fa;
                       0x73b0; 0x672a; 0x77e5; 0x9519; 0x8bef; 0x3a; 0x20]%N ++ msg)
  end.

(** Line 68 *)
Definition invalid_url (url : str) : FetchError :=
  FetchValueError ([0x65e0; 0x6548; 0x7684; 0x55; 0x52; 0x4c; 0x3a; 0x20]%N ++ url).

(** Line 102 *)
Definition no_content (url : str) : FetchError :=
  FetchException ([0x65e0; 0x6cd5; 0x83b7; 0x53d6; 0x7f51; 0x9875; 0x5185; 0x5bb9;
                   0x3a; 0x20]%N ++ url).

Section Fetch.
Context {World : Type} (net : Network World).
Variable max_retries retry_wait : Z.

(** Lines 74-97: [n] attempts are left.  The last component counts the
    calls of [session.get]; the code keeps no such count. *)
Fixpoint attempts (url : str) (n : nat) (last_error : option FetchError)
    (w : World) (requests : nat)
  : option str * option FetchError * World * nat :=
  match n with
  | O => (None, last_error, w, requests)
  | S n' =>
      match session_get net w url with
      | (inr html_content, w) => (Some html_content, last_error, w, S requests)
      | (inl e, w) =>
          attempts url n' (Some (last_error_of e)) (sleep net w retry_wait) (S requests)
      end
  end.

Definition fetch (w : World) (url : str) : (FetchError + str) * World * nat :=
  if negb (_is_valid_url net url) then (inl (invalid_url url), w, O)
  else
    let '(html_content, last_error, w, requests) :=
      attempts url (Z.to_nat max_retries) None w O in
    match html_content with
    | None =>
        match last_error with
        | Some e => (inl e, w, requests)
        | None => (inl (no_content url), w, requests)
        end
    | Some html => (inr (_process_content net html url), w, requests)
    end.

End Fetch.
End WebpageContentFetcher.

(** ** [models/deepseek_client.py]: the retry loop of [generate] *)

Module DeepSeekModelClient.
Import Py.

(** Line 101 *)
Definition api_failure (msg : str) : exn :=
  Exception ([0x44; 0x65; 0x65; 0x70; 0x53; 0x65; 0x65; 0x6b; 0x20; 0x41; 0x50; 0x49;
              0x8c03; 0x7528; 0x5931; 0x8d25; 0x3a; 0x20]%N ++ msg).

Section Generate.
Context {World Params Response : Type}.
(** [_generate_sync] and [_generate_stream], which call the API client:
    the reply, or the [str(e)] of the exception. *)
Variable _generate_sync : World -> Params -> (str + Response) * World.
Variable _generate_stream : World -> Params -> (str + Response) * World.
Variable sleep : World -> Z -> World.
Variable max_retries retry_wait : Z.

(** Lines 90-101: [n] attempts are left and [attempt] is the loop
    variable.  [None] is the [None] that Python returns when the loop
    ends without a [return].  The last component counts the calls of the
    API; the code keeps no such count. *)
Fixpoint generate_loop (stream : bool) (params : Params) (n : nat) (attempt : Z)
    (w : World) (calls : nat) : Exc (option Response) * World * nat :=
  match n with
  | O => (OK None, w, calls)
  | S n' =>
      match (if stream then _generate_stream w params else _generate_sync w params) with
      | (inr response, w) => (OK (Some response), w, S calls)
      | (inl msg, w) =>
          if attempt <? max_retries - 1
          then generate_loop stream params n' (attempt + 1) (sleep w retry_wait) (S calls)
          else (Raise (api_failure msg), w, S calls)
      end
  end.

Definition generate (w : World) (params : Params) (stream : bool)
  : Exc (option Response) * World * nat :=
  generate_loop stream params (Z.to_nat max_retries) 0 w O.

End Generate.
End DeepSeekModelClient.

(** ** [utils/text_utils.py] *)

Module TextUtils.
Import Py.

Definition normalize_whitespace (text : str) : str :=
  let text := Re.sub_ws text in
  let text := Re.sub_blank_lines text in
  strip text.

(** The class [[.!?。！？；;]] of line 225. *)
Definition sentence_break (c : N) : bool :=
  existsb (N.eqb c) (lit ".!?;" ++ [0x3002; 0xff01; 0xff1f; 0xff1b]%N).

(** [re.sub(r'([.!?。！？；;])\s*', r'\1\n', text)]: each terminator, with
    the whitespace run that follows it, becomes the terminator and a
    newline.  [after_break] tells that such a run is being passed over. *)
Fixpoint sub_breaks_go (after_break : bool) (s : str) : str :=
  match s with
  | [] => []
  | c :: r =>
      if after_break && isspace c then sub_breaks_go true r
      else if sentence_break c then c :: NL :: sub_breaks_go true r
      else c :: sub_breaks_go false r
  end.

Definition split_text_by_sentences (text : str) : list str :=
  let text := sub_breaks_go false text in
  map strip (List.filter (fun s => truthy (strip s)) (split text [NL])).

(** [l[i:stop]] for [i >= 0]; a negative [stop] counts from the end. *)
Definition slice_to {A} (l : list A) (i : nat) (stop : Z) : list A :=
  let n := Z.of_nat (length l) in
  let stop := if stop <? 0 then Z.max (n + stop) 0 else Z.min stop n in
  take (Z.to_nat stop - i) (drop i l).

Section Splitting.
(** [estimate_tokens]: the count of the tokenizer, or the estimate from
    the character classes when there is none; it does not raise. *)
Variable estimate_tokens : str -> nat.
(** [tiktoken.get_encoding], [None] when it raises. *)
Variable get_encoding : option Tokenizer.
Variable max_tokens_per_chunk : Z.

(** Lines 184-193: the body of the loop over the sentences of an
    oversized paragraph, on [chunks], [temp_chunk] and [temp_tokens]. *)
Definition sentence_body (a : list str * list str * nat) (sentence : str)
  : list str * list str * nat :=
  let '(chunks, temp_chunk, temp_tokens) := a in
  let sentence_tokens := estimate_tokens sentence in
  let '(chunks, temp_chunk, temp_tokens) :=
    if max_tokens_per_chunk <? Z.of_nat (temp_tokens + sentence_tokens) then
      match temp_chunk with
      | [] => (chunks, temp_chunk, temp_tokens)
      | _ :: _ => (chunks ++ [join [SP] temp_chunk], [], O)
      end
    else (chunks, temp_chunk, temp_tokens) in
  (chunks, temp_chunk ++ [sentence], (temp_tokens + sentence_tokens)%nat).

(** Lines 169-205: the body of the loop over the paragraphs. *)
Definition paragraph_body (a : ContentProcessorAgent.acc) (para : str)
  : ContentProcessorAgent.acc :=
  let chunks := ContentProcessorAgent.chunks a in
  let current_chunk := ContentProcessorAgent.current_chunk a in
  let current_chunk_tokens := ContentProcessorAgent.current_length a in
  let para_tokens := estimate_tokens para in
  if max_tokens_per_chunk <? Z.of_nat para_tokens then
    let '(chunks, current_chunk, current_chunk_tokens) :=
      match current_chunk with
      | [] => (chunks, current_chunk, current_chunk_tokens)
      | _ :: _ => (chunks ++ [join ContentProcessorAgent.NLNL current_chunk], [], O)
      end in
    let sentences := split_text_by_sentences para in
    let '(chunks, temp_chunk, _) := fold_left sentence_body sentences (chunks, [], O) in
    let chunks :=
      match temp_chunk with
      | [] => chunks
      | _ :: _ => chunks ++ [join [SP] temp_chunk]
      end in
    {| ContentProcessorAgent.chunks := chunks;
       ContentProcessorAgent.current_chunk := current_chunk;
       ContentProcessorAgent.current_length := current_chunk_tokens |}
  else if max_tokens_per_chunk <? Z.of_nat (current_chunk_tokens + para_tokens) then
    {| ContentProcessorAgent.chunks :=
         chunks ++ [join ContentProcessorAgent.NLNL current_chunk];
       ContentProcessorAgent.current_chunk := [para];
       ContentProcessorAgent.current_length := para_tokens |}
  else
    {| ContentProcessorAgent.chunks := chunks;
       ContentProcessorAgent.current_chunk := current_chunk ++ [para];
       ContentProcessorAgent.current_length := (current_chunk_tokens + para_tokens)%nat |}.

(** [overlap_tokens] is ignored, as the docstring says. *)
Definition split_text_by_paragraphs (text : str) : list str :=
  ContentProcessorAgent.flush
    (fold_left paragraph_body (ContentProcessorAgent.paragraphs text)
       {| ContentProcessorAgent.chunks := [];
          ContentProcessorAgent.current_chunk := [];
          ContentProcessorAgent.current_length := O |}).

(** Any exception in the [try], the one of [range] for a step of zero
    among them, leads to the split by paragraphs. *)
Definition split_text_by_tokens (text : str) (overlap_tokens : Z) : list str :=
  match get_encoding with
  | None => split_text_by_paragraphs text
  | Some tokenizer =>
      let tokens := encode tokenizer text in
      match range (length tokens) (max_tokens_per_chunk - overlap_tokens) with
      | Raise _ => split_text_by_paragraphs text
      | OK starts =>
          map (fun i =>
                 let chunk_end := Z.min (Z.of_nat i + max_tokens_per_chunk)
                                        (Z.of_nat (length tokens)) in
                 decode tokenizer (slice_to tokens i chunk_end))
              starts
      end
  end.

End Splitting.
End TextUtils.

(** ** Concrete collaborators, for running the model *)

(** The tokenizer with one token per code point. *)
Definition codepoint_tokenizer : Tokenizer := {| encode := id; decode := id |}.

(** A scripted world: what the page fetch gives, the successive replies
    of the summarizer, and the reply of the integrator. *)
Record Script := {
  page : Py.Exc str;
  replies : list (Py.Exc Response);
  merged : Py.Exc Response
}.

Record ToyWorld := {
  ticks : nat;
  summarizer_calls : nat
}.

Definition tick (w : ToyWorld) : ToyWorld :=
  {| ticks := S (ticks w); summarizer_calls := summarizer_calls w |}.

(** The digest is replaced by the identity, and the clock counts calls. *)
Definition toy_host (sc : Script) : Host ToyWorld Z := {|
  md5_hexdigest := fun u => u;
  time_time := fun w => (Z.of_nat (ticks w), tick w);
  int_of_float := fun t => t;
  strftime_now := fun w => (Py.str_of_nat (ticks w), tick w);
  uuid4_hex := fun w => (Py.lit "c0de" ++ Py.str_of_nat (ticks w), tick w);
  fetch := fun w _ => (page sc, tick w);
  generate_summary := fun w _ =>
    (nth (summarizer_calls w) (replies sc) (Py.Raise (Py.Exception [])),
     {| ticks := ticks w; summarizer_calls := S (summarizer_calls w) |});
  integrate_summaries := fun w _ _ => (merged sc, tick w)
|}.

Definition toy_world : ToyWorld := {| ticks := 0; summarizer_calls := 0 |}.

Definition empty_team : SummarizationAgentTeam.Team Z := {|
  SummarizationAgentTeam.storage :=
    {| SummaryStorage.index_file := Some ∅; SummaryStorage.files := ∅ |};
  SummarizationAgentTeam.web_fetcher :=
    {| WebFetcherAgent.content_files := ∅;
       WebFetcherAgent.content_index_file := Some ∅ |}
|}.

(** Scenario D: three chunks, three summaries, a failing integrator. *)
Definition scenario_D : Script := {|
  page := Py.OK (Py.lit "aa. bb. cc.");
  replies := [Py.OK (RStr (Py.lit "A discusses X."));
              Py.OK (RStr (Py.lit "B discusses Y."));
              Py.OK (RStr (Py.lit "C discusses Z."))];
  merged := Py.Raise (Py.Exception (Py.lit "backend down"))
|}.

(** The page cannot be fetched. *)
Definition unreachable_page : Script := {|
  page := Py.Raise (Py.Exception (Py.lit "connection refused"));
  replies := [];
  merged := Py.Raise (Py.Exception [])
|}.

(** The page is fetched, and is empty. *)
Definition empty_page : Script := {|
  page := Py.OK [];
  replies := [];
  merged := Py.Raise (Py.Exception [])
|}.

(** The summarizer fails on the second chunk of three. *)
Definition second_chunk_fails : Script := {|
  page := Py.OK (Py.lit "aa. bb. cc.");
  replies := [Py.OK (RStr (Py.lit "first"));
              Py.Raise (Py.Exception (Py.lit "timeout"));
              Py.OK (RObj None (Some (Py.lit "third")) (Py.lit "<reply>"))];
  merged := Py.OK (RStr (Py.lit "all three"))
|}.

Definition empty_store : SummaryStorage.Store Z :=
  {| SummaryStorage.index_file := Some ∅; SummaryStorage.files := ∅ |}.

(** An index with a record for [http://x] whose file is not there. *)
Definition dangling_store : SummaryStorage.Store Z := {|
  SummaryStorage.index_file :=
    Some {[ Py.lit "http://x" :=
              {| SummaryStorage.id := Py.lit "0123abcd-1700000000-beef";
                 SummaryStorage.url := Py.lit "http://x";
                 SummaryStorage.timestamp := Py.lit "2024-01-01 00:00:00";
                 SummaryStorage.timestamp_unix := 1700000000;
                 SummaryStorage.preview := Py.lit "gone" |} ]};
  SummaryStorage.files := ∅
|}.

(** A server that times out twice and then answers; the world counts
    the requests.  URLs are valid when they start with [http]. *)
Definition flaky_network : WebpageContentFetcher.Network nat := {|
  WebpageContentFetcher._is_valid_url := fun u => Py.startswith u (Py.lit "http");
  WebpageContentFetcher.session_get := fun w _ =>
    if (w <? 2)%nat
    then (inl (WebpageContentFetcher.Timeout (Py.lit "read timed out")), S w)
    else (inr (Py.lit "<p>hello</p>"), S w);
  WebpageContentFetcher.sleep := fun w _ => w;
  WebpageContentFetcher._process_content := fun html _ => html
|}.

(** An API that is busy once and then echoes the parameters. *)
Definition flaky_api (w : nat) (params : str) : (str + str) * nat :=
  if (w <? 1)%nat then (inl (Py.lit "busy"), S w) else (inr params, S w).

(** ** Predicates of the specification *)

Module Spec.
Import Py.

(** Every whitespace run of [s] is one space. *)
Definition single_spaced (s : str) : Prop :=
  forall i c, s !! i = Some c -> isspace c = true ->
    c = SP /\ forall d, s !! S i = Some d -> isspace d = false.

(** The text of [s] without its whitespace. *)
Definition non_ws (s : str) : str := List.filter (fun c => negb (isspace c)) s.

(** P2: the chunks, put end to end, hold the non-whitespace content of
    [text], in order. *)
Definition coverage (chunks : list str) (text : str) : Prop :=
  non_ws (concat chunks) = non_ws text.

Section ChunkerSpec.
Import ContentProcessorAgent.
Variable tk : Tokenizer.
Variable CHUNK_SIZE : Z.

Definition oversized (s : str) : bool := CHUNK_SIZE <? Z.of_nat (n_tokens tk s).

Definition windows_of (sentence : str) : list str :=
  match hard_split tk CHUNK_SIZE (encode tk sentence) with
  | OK windows => windows
  | Raise _ => []
  end.

(** The chunks that the forced hard split of [content] produces: the
    windows of the oversized sentences of its oversized paragraphs. *)
Definition hard_split_windows (content : str) : list str :=
  flat_map (fun para => flat_map windows_of
                          (List.filter oversized (Re.split_sentences para)))
           (List.filter oversized (paragraphs content)).

(** Sum of the token counts of the pieces of a chunk. *)
Definition sum_tokens (parts : list str) : nat :=
  foldr (fun part n => (n_tokens tk part + n)%nat) O parts.

(** P1 *)
Definition chunk_size_bound (content : str) : Prop :=
  forall chunks, _split_into_chunks tk CHUNK_SIZE content = OK chunks ->
  forall c, c ∈ chunks ->
    c ∈ hard_split_windows content \/ Z.of_nat (n_tokens tk c) <= CHUNK_SIZE.

(** What the accumulation rule gives instead: the token counts of the
    pieces joined into a chunk add up to at most [CHUNK_SIZE]. *)
Definition pieces_within_budget (c : str) : Prop :=
  exists parts, c = join NLNL parts /\ Z.of_nat (sum_tokens parts) <= CHUNK_SIZE.

(** The invariant of both loops: the chunks appended so far are windows
    of the hard split or within budget, and [current_length] is the token
    count of the pieces waiting in [current_chunk], itself within budget. *)
Definition chunker_inv (W : list str) (a : acc) : Prop :=
  (forall c, c ∈ chunks a -> c ∈ W \/ pieces_within_budget c)
  /\ sum_tokens (current_chunk a) = current_length a
  /\ Z.of_nat (current_length a) <= CHUNK_SIZE.

(** No sentence of [content] is hard-split: the oversized paragraphs
    have no oversized sentence. *)
Definition no_hard_split (content : str) : Prop :=
  forall para, para ∈ paragraphs content -> oversized para = true ->
  forall sentence, sentence ∈ Re.split_sentences para -> oversized sentence = false.

End ChunkerSpec.

(** What [range] raises for a step of zero. *)
Definition range_error : exn := ValueError (lit "range() arg 3 must not be zero").

(** The same for the loop over sentences of [split_text_by_paragraphs]. *)
Definition taken3 (a : list str * list str * nat) : str :=
  concat a.1.1 ++ concat a.1.2.

(** A text with something other than whitespace in it. *)
Definition not_blank (s : str) : Prop := non_ws s <> [].

(** Neither the chunks appended nor the pieces waiting are blank. *)
Definition chunks_ok (chunks pending : list str) : Prop :=
  Forall not_blank chunks /\ Forall not_blank pending.

(** The text that the loop has taken so far: appended and waiting. *)
Definition taken (a : ContentProcessorAgent.acc) : str :=
  concat (ContentProcessorAgent.chunks a)
  ++ concat (ContentProcessorAgent.current_chunk a).

End Spec.

(** * Properties *)

(** ** Python strings *)

Section StringFacts.
Import Py.

Lemma isspace_NL : isspace NL = true.
Proof. reflexivity. Qed.

(** The models of the library calls, on inputs tried against Python. *)

Example split_blank_line :
  split (lit "a" ++ [NL; NL; NL] ++ lit "b" ++ [NL; NL]) [NL; NL]
  = [lit "a"; NL :: lit "b"; []].
Proof. reflexivity. Qed.

Example split_sentences_runs :
  Re.split_sentences (lit "A.  B? c. ") = [lit "A."; lit "B?"; lit "c."; []].
Proof. reflexivity. Qed.

Example split_sentences_needs_terminator :
  Re.split_sentences (lit "a b. c") = [lit "a b."; lit "c"].
Proof. reflexivity. Qed.

Example sub_blank_lines_runs :
  Re.sub_blank_lines (lit "a" ++ [NL; SP; NL; NL; SP; NL] ++ lit "b "
                      ++ [NL; NL; NL; SP; SP] ++ lit "c" ++ [NL; NL] ++ lit "d")
  = lit "a" ++ [NL; NL] ++ lit "b " ++ [NL; NL; SP; SP] ++ lit "c" ++ [NL; NL]
    ++ lit "d".
Proof. reflexivity. Qed.

Example clean_content_runs :
  ContentProcessorAgent._clean_content
    ([SP; NL] ++ lit "Caf" ++ [0xe9%N] ++ lit "  <b>" ++ [NL; NL; NL] ++ lit "ok!" ++ [NL])
  = lit "Caf b ok!".
Proof. reflexivity. Qed.

Example range_step : range 7 3 = OK [0; 3; 6]%nat.
Proof. reflexivity. Qed.

Example error_marker_2 :
  SummarizationAgentTeam.error_marker 2
  = [0x5b; 0x5757; 0x20; 0x32; 0x20; 0x5904; 0x7406; 0x9519; 0x8bef; 0x5d]%N.
Proof. reflexivity. Qed.

Lemma single_spaced_cons c t :
  Spec.single_spaced t ->
  (isspace c = true -> c = SP /\ forall d, t !! O = Some d -> isspace d = false) ->
  Spec.single_spaced (c :: t).
Proof.
  intros Ht Hc [|i] x Hx Hsp; simpl in *.
  - injection Hx as <-. exact (Hc Hsp).
  - exact (Ht i x Hx Hsp).
Qed.

Lemma sub_ws_go_single_spaced s : forall in_run,
  Spec.single_spaced (Re.sub_ws_go in_run s) /\
  (in_run = true -> forall d, Re.sub_ws_go in_run s !! O = Some d -> isspace d = false).
Proof.
  induction s as [|c r IH]; intros in_run; simpl.
  - split; [intros i c Hc; by rewrite lookup_nil in Hc | intros _ d Hd; done].
  - destruct (isspace c) eqn:Hc.
    + destruct in_run.
      * apply IH.
      * destruct (IH true) as [H1 H2]. split; [|done].
        apply single_spaced_cons; [done|]. intros _. split; [done|]. by apply H2.
    + destruct (IH false) as [H1 _]. split.
      * apply single_spaced_cons; [done|]. congruence.
      * intros _ d [= <-]. done.
Qed.

Lemma single_spaced_infix pre mid suf :
  Spec.single_spaced (pre ++ mid ++ suf) -> Spec.single_spaced mid.
Proof.
  intros H i c Hc Hsp.
  destruct (H (length pre + i)%nat c) as [H1 H2]; [|done|].
  - rewrite lookup_app_r by lia.
    replace (length pre + i - length pre)%nat with i by lia.
    by apply lookup_app_l_Some.
  - split; [done|]. intros d Hd. apply H2.
    replace (S (length pre + i)) with (length pre + S i)%nat by lia.
    rewrite lookup_app_r by lia.
    replace (length pre + S i - length pre)%nat with (S i) by lia.
    by apply lookup_app_l_Some.
Qed.

Lemma lstrip_suffix s : exists pre, s = pre ++ lstrip s.
Proof.
  induction s as [|c r [pre IH]]; simpl.
  - by exists [].
  - destruct (isspace c).
    + exists (c :: pre). simpl. by f_equal.
    + by exists [].
Qed.

Lemma rstrip_prefix s : exists suf, s = rstrip s ++ suf.
Proof.
  unfold rstrip. destruct (lstrip_suffix (rev s)) as [pre H].
  exists (rev pre). rewrite <- rev_app_distr, <- H. by rewrite rev_involutive.
Qed.

Lemma strip_infix s : exists pre suf, s = pre ++ strip s ++ suf.
Proof.
  unfold strip. destruct (lstrip_suffix s) as [pre H].
  destruct (rstrip_prefix (lstrip s)) as [suf H'].
  exists pre, suf. by rewrite <- H'.
Qed.

Lemma single_spaced_no_NL s : Spec.single_spaced s -> NL ∉ s.
Proof.
  intros H [i Hi]%list_elem_of_lookup.
  by destruct (H i NL Hi isspace_NL) as [? _].
Qed.

Lemma startswith_NLNL_other c r :
  NL ≠ c -> startswith (c :: r) ContentProcessorAgent.NLNL = false.
Proof.
  intros Hc. unfold ContentProcessorAgent.NLNL.
  cbn [startswith]. by destruct (N.eqb_spec NL c).
Qed.

Lemma split_go_no_NL s : forall cur,
  NL ∉ s -> split_go ContentProcessorAgent.NLNL O cur s = [rev cur ++ s].
Proof.
  induction s as [|c r IH]; intros cur Hs.
  - simpl. by rewrite app_nil_r.
  - apply not_elem_of_cons in Hs as [Hc Hr].
    cbn [split_go]. rewrite startswith_NLNL_other by done.
    rewrite IH by done. cbn [rev]. by rewrite <- app_assoc.
Qed.

Lemma split_no_NL s : NL ∉ s -> split s ContentProcessorAgent.NLNL = [s].
Proof. intros H. unfold split. by rewrite split_go_no_NL. Qed.

End StringFacts.

(** ** Cleaning *)

Section Cleaning.
Import Py ContentProcessorAgent.

Lemma clean_content_single_spaced content :
  Spec.single_spaced (_clean_content content).
Proof.
  unfold _clean_content.
  destruct (strip_infix (Re.sub_ws (Re.sub_unwanted (Re.sub_blank_lines content))))
    as (pre & suf & H).
  apply (single_spaced_infix pre _ suf). rewrite <- H.
  apply (sub_ws_go_single_spaced _ false).
Qed.


End Cleaning.

(** ** Chunking *)

Section Chunking.
Import Py ContentProcessorAgent.
Variable tk : Tokenizer.
Variable CHUNK_SIZE : Z.

Local Abbreviation n_tokens := (n_tokens tk).
Local Abbreviation sentence_step := (sentence_step tk CHUNK_SIZE).
Local Abbreviation paragraph_step := (paragraph_step tk CHUNK_SIZE).
Local Abbreviation windows_of := (Spec.windows_of tk CHUNK_SIZE).
Local Abbreviation hard_split_windows := (Spec.hard_split_windows tk CHUNK_SIZE).
Local Abbreviation sum_tokens := (Spec.sum_tokens tk).
Local Abbreviation pieces_within_budget := (Spec.pieces_within_budget tk CHUNK_SIZE).

Lemma for_each_invariant {A S} (I : S -> Prop) (body : S -> A -> Exc S) xs :
  (forall s x, x ∈ xs -> I s -> exists s', body s x = OK s' /\ I s') ->
  forall s, I s -> exists s', for_each body xs s = OK s' /\ I s'.
Proof.
  induction xs as [|x r IH]; intros Hbody s Hs; simpl.
  - by exists s.
  - destruct (Hbody s x) as (s1 & -> & Hs1); [left | done |]. simpl.
    apply IH; [|done]. intros s2 y Hy. apply Hbody. by right.
Qed.

Lemma hard_split_returns toks :
  1 <= CHUNK_SIZE -> exists windows, hard_split tk CHUNK_SIZE toks = OK windows.
Proof.
  intros HK. unfold hard_split, range.
  destruct (Z.eqb_spec CHUNK_SIZE 0); [lia|].
  destruct (Z.ltb_spec CHUNK_SIZE 0); [lia|]. simpl. eauto.
Qed.

Lemma sum_tokens_snoc parts part :
  sum_tokens (parts ++ [part]) = (sum_tokens parts + n_tokens part)%nat.
Proof.
  induction parts as [|p r IH]; simpl; [lia|]. rewrite IH. lia.
Qed.

Lemma sentence_step_inv W a sentence :
  1 <= CHUNK_SIZE ->
  (Spec.oversized tk CHUNK_SIZE sentence = true ->
   forall c, c ∈ windows_of sentence -> c ∈ W) ->
  Spec.chunker_inv tk CHUNK_SIZE W a ->
  exists a', sentence_step a sentence = OK a' /\ Spec.chunker_inv tk CHUNK_SIZE W a'.
Proof.
  intros HK HW (Hc & Hsum & Hlen). unfold ContentProcessorAgent.sentence_step.
  fold (n_tokens sentence).
  destruct (Z.ltb_spec CHUNK_SIZE (Z.of_nat (n_tokens sentence))) as [Hbig|Hfit].
  - destruct (hard_split_returns (encode tk sentence) HK) as [windows Hw].
    rewrite Hw. simpl. eexists. split; [done|]. split; [|done]. simpl.
    intros c [Hin|Hin]%elem_of_app; [by apply Hc|]. left. apply HW.
    + unfold Spec.oversized. by apply Z.ltb_lt.
    + unfold Spec.windows_of. by rewrite Hw.
  - destruct (Z.ltb_spec CHUNK_SIZE (Z.of_nat (current_length a + n_tokens sentence)))
      as [Hfull|Hroom].
    + eexists. split; [done|]. split; [|split]; simpl; [|lia|lia].
      intros c [Hin|Hin]%elem_of_app; [by apply Hc|]. right.
      apply list_elem_of_singleton in Hin as ->.
      exists (current_chunk a). split; [done|]. rewrite Hsum. lia.
    + eexists. split; [done|]. split; [|split]; simpl; [done| |lia].
      rewrite sum_tokens_snoc. lia.
Qed.

Lemma paragraph_step_inv content a para :
  1 <= CHUNK_SIZE ->
  para ∈ paragraphs content ->
  Spec.chunker_inv tk CHUNK_SIZE (hard_split_windows content) a ->
  exists a', paragraph_step a para = OK a'
             /\ Spec.chunker_inv tk CHUNK_SIZE (hard_split_windows content) a'.
Proof.
  intros HK Hpara Ha. unfold ContentProcessorAgent.paragraph_step.
  destruct (Z.ltb_spec CHUNK_SIZE (Z.of_nat (n_tokens para))) as [Hbig|Hfit].
  - apply for_each_invariant; [|done].
    intros a1 sentence Hsent Ha1. apply sentence_step_inv; [done| |done].
    intros Hover c Hc. apply list_elem_of_In, in_flat_map.
    exists para. split.
    + apply filter_In. split; [by apply list_elem_of_In|].
      unfold Spec.oversized. by apply Z.ltb_lt.
    + apply in_flat_map. exists sentence. split; [|by apply list_elem_of_In].
      apply filter_In. split; [by apply list_elem_of_In | done].
  - destruct Ha as (Hc & Hsum & Hlen).
    destruct (Z.ltb_spec CHUNK_SIZE (Z.of_nat (current_length a + n_tokens para)))
      as [Hfull|Hroom].
    + eexists. split; [done|]. split; [|split]; simpl; [|lia|lia].
      intros c [Hin|Hin]%elem_of_app; [by apply Hc|]. right.
      apply list_elem_of_singleton in Hin as ->.
      exists (current_chunk a). split; [done|]. rewrite Hsum. lia.
    + eexists. split; [done|]. split; [|split]; simpl; [done| |lia].
      rewrite sum_tokens_snoc. lia.
Qed.

(** C3.  A text whose token count is at most [CHUNK_SIZE] comes back as
    the only chunk, unchanged. *)
Theorem short_input_passthrough (text : str) :
  Z.of_nat (n_tokens text) <= CHUNK_SIZE ->
  _split_into_chunks tk CHUNK_SIZE text = OK [text].
Proof.
  intros H. unfold _split_into_chunks.
  by destruct (Z.leb_spec (Z.of_nat (n_tokens text)) CHUNK_SIZE); [|lia].
Qed.

(** C1, amended.  With [CHUNK_SIZE >= 1] the chunker returns, and each
    chunk it returns that is not a window of the hard split is either
    the input itself, of at most [CHUNK_SIZE] tokens, or the join of
    pieces whose token counts add up to at most [CHUNK_SIZE].  The token
    count of the joined chunk, separators included, is not bounded. *)
Theorem chunk_pieces_bound (content : str) :
  1 <= CHUNK_SIZE ->
  exists chunks,
    _split_into_chunks tk CHUNK_SIZE content = OK chunks /\
    forall c, c ∈ chunks ->
      c ∈ hard_split_windows content
      \/ (c = content /\ Z.of_nat (n_tokens content) <= CHUNK_SIZE)
      \/ pieces_within_budget c.
Proof.
  intros HK. unfold _split_into_chunks.
  destruct (Z.leb_spec (Z.of_nat (n_tokens content)) CHUNK_SIZE) as [Hfit|Hbig].
  - eexists. split; [done|]. intros c ->%list_elem_of_singleton. right. by left.
  - destruct (for_each_invariant (Spec.chunker_inv tk CHUNK_SIZE (hard_split_windows content))
                paragraph_step (paragraphs content)) with
      (s := {| chunks := []; current_chunk := []; current_length := O |})
      as (a & -> & Hc & Hsum & Hlen).
    + intros a x Hx Ha. by apply paragraph_step_inv.
    + split; [|split]; simpl; [|done|lia]. intros c Hin. by apply elem_of_nil in Hin.
    + simpl. eexists. split; [done|].
      assert (forall c, c ∈ chunks a ->
                c ∈ hard_split_windows content
                \/ (c = content /\ Z.of_nat (n_tokens content) <= CHUNK_SIZE)
                \/ pieces_within_budget c) as Hc'.
      { intros c Hin. destruct (Hc c Hin); [by left | by right; right]. }
      unfold flush. destruct (current_chunk a) as [|p r] eqn:Hcur; [done|].
      intros c [Hin|Hin]%elem_of_app; [by apply Hc'|]. right. right.
      apply list_elem_of_singleton in Hin as ->.
      exists (p :: r). split; [done|]. rewrite Hsum. lia.
Qed.

(** X2.  A sentence that is hard-split has its windows appended at once,
    while the sentences before it still wait in [current_chunk]: with
    any tokenizer, when the text is one paragraph of three sentences, the
    middle one over budget and the outer two not fitting one chunk
    together, the windows of [s2] come out before [s1]. *)
Lemma hard_split_reorders (content s1 s2 s3 : str) :
  1 <= CHUNK_SIZE ->
  paragraphs content = [content] ->
  Re.split_sentences content = [s1; s2; s3] ->
  CHUNK_SIZE < Z.of_nat (n_tokens content) ->
  Z.of_nat (n_tokens s1) <= CHUNK_SIZE ->
  CHUNK_SIZE < Z.of_nat (n_tokens s2) ->
  Z.of_nat (n_tokens s3) <= CHUNK_SIZE ->
  CHUNK_SIZE < Z.of_nat (n_tokens s1 + n_tokens s3) ->
  _split_into_chunks tk CHUNK_SIZE content = OK (windows_of s2 ++ [s1; s3]).
Proof.
  intros HK Hpara Hsent Hc H1 H2 H3 H13. unfold _split_into_chunks.
  destruct (Z.leb_spec (Z.of_nat (n_tokens content)) CHUNK_SIZE); [lia|].
  rewrite Hpara. cbn [for_each]. unfold ContentProcessorAgent.paragraph_step.
  destruct (Z.ltb_spec CHUNK_SIZE (Z.of_nat (n_tokens content))); [|lia].
  rewrite Hsent. cbn [for_each]. unfold ContentProcessorAgent.sentence_step at 1.
  fold (n_tokens s1). cbn [current_length current_chunk chunks].
  destruct (Z.ltb_spec CHUNK_SIZE (Z.of_nat (n_tokens s1))); [lia|].
  destruct (Z.ltb_spec CHUNK_SIZE (Z.of_nat (0 + n_tokens s1))); [lia|].
  cbn [bind]. unfold ContentProcessorAgent.sentence_step at 1.
  fold (n_tokens s2). cbn [current_length current_chunk chunks].
  destruct (Z.ltb_spec CHUNK_SIZE (Z.of_nat (n_tokens s2))); [|lia].
  unfold Spec.windows_of.
  destruct (hard_split_returns (encode tk s2) HK) as [windows ->].
  cbn [bind]. unfold ContentProcessorAgent.sentence_step at 1.
  fold (n_tokens s3). cbn [current_length current_chunk chunks].
  destruct (Z.ltb_spec CHUNK_SIZE (Z.of_nat (n_tokens s3))); [lia|].
  destruct (Z.ltb_spec CHUNK_SIZE (Z.of_nat (0 + n_tokens s1 + n_tokens s3))); [|lia].
  cbn [bind for_each]. unfold flush. cbn [current_chunk chunks app join].
  by rewrite <- !app_assoc.
Qed.

End Chunking.

(** ** Coverage *)

Section Coverage.
Import Py ContentProcessorAgent.
Variable tk : Tokenizer.
Variable CHUNK_SIZE : Z.

Local Abbreviation non_ws := Spec.non_ws.
Local Abbreviation taken := Spec.taken.
Local Abbreviation oversized := (Spec.oversized tk CHUNK_SIZE).

Lemma non_ws_app a b : non_ws (a ++ b) = non_ws a ++ non_ws b.
Proof. apply List.filter_app. Qed.

Lemma non_ws_space c s : isspace c = true -> non_ws (c :: s) = non_ws s.
Proof. intros H. unfold Spec.non_ws. simpl. by rewrite H. Qed.

Lemma non_ws_snoc_cons cur c r : non_ws (rev (c :: cur) ++ r) = non_ws (rev cur ++ c :: r).
Proof. simpl. by rewrite <- app_assoc. Qed.

Lemma non_ws_all_space s : forallb isspace s = true -> non_ws s = [].
Proof.
  induction s as [|c r IH]; [done|]. cbn [forallb].
  intros [Hc Hr]%andb_prop. rewrite non_ws_space by done. by apply IH.
Qed.

Lemma lstrip_nil s : lstrip s = [] -> forallb isspace s = true.
Proof.
  induction s as [|c r IH]; [done|]. simpl.
  destruct (isspace c); [exact IH | discriminate].
Qed.

Lemma lstrip_head s c r : lstrip s = c :: r -> isspace c = false.
Proof.
  induction s as [|x s IH]; [done|]. simpl.
  destruct (isspace x) eqn:Hx; [exact IH|]. by intros [= <- _].
Qed.

(** A text that strips to nothing holds only whitespace. *)
Lemma strip_nil s : strip s = [] -> non_ws s = [].
Proof.
  unfold strip, rstrip. intros H.
  apply (f_equal (@rev N)) in H. rewrite rev_involutive in H. simpl in H.
  apply lstrip_nil in H.
  destruct (lstrip s) as [|c r] eqn:Hs.
  - by apply non_ws_all_space, lstrip_nil.
  - simpl in H. rewrite forallb_app in H. apply andb_prop in H as [_ Hc].
    simpl in Hc. apply lstrip_head in Hs. destruct (isspace c); done.
Qed.

Lemma startswith_NLNL s :
  startswith s NLNL = true -> exists r, s = NL :: NL :: r.
Proof.
  unfold NLNL. destruct s as [|a [|b r]]; cbn [startswith]; try done.
  - by rewrite andb_false_r.
  - destruct (N.eqb_spec NL a) as [<-|]; [|done].
    destruct (N.eqb_spec NL b) as [<-|]; [|done]. by exists r.
Qed.

(** [split] on a blank line drops whitespace only. *)
Lemma split_go_non_ws s : forall skip cur,
  forallb isspace (take skip s) = true ->
  non_ws (concat (split_go NLNL skip cur s)) = non_ws (rev cur ++ s).
Proof.
  induction s as [|c r IH]; intros skip cur Hskip.
  - simpl. by rewrite !app_nil_r.
  - destruct skip as [|k].
    + cbn [split_go]. destruct (startswith (c :: r) NLNL) eqn:E.
      * apply startswith_NLNL in E as [r' [= -> ->]].
        cbn [concat]. rewrite non_ws_app, IH by done.
        rewrite (non_ws_app (rev cur)). simpl rev. cbn [app].
        by rewrite (non_ws_space NL (NL :: r')).
      * rewrite IH by done. apply non_ws_snoc_cons.
    + cbn [split_go]. simpl in Hskip. apply andb_prop in Hskip as [Hc Hr].
      rewrite IH by done. by rewrite !non_ws_app, (non_ws_space c).
Qed.

Lemma split_non_ws s : non_ws (concat (split s NLNL)) = non_ws s.
Proof. unfold split. by rewrite split_go_non_ws. Qed.

(** So does the split into sentences. *)
Lemma split_sentences_go_non_ws s : forall after_end in_sep cur,
  non_ws (concat (Re.split_sentences_go after_end in_sep cur s))
  = non_ws (rev cur ++ s).
Proof.
  induction s as [|c r IH]; intros after_end in_sep cur.
  - simpl. by rewrite !app_nil_r.
  - cbn [Re.split_sentences_go]. destruct (isspace c) eqn:Hc.
    + destruct in_sep; [|destruct after_end].
      * rewrite IH. by rewrite !non_ws_app, (non_ws_space c).
      * cbn [concat]. rewrite non_ws_app, IH. simpl rev. cbn [app].
        by rewrite (non_ws_app (rev cur)), (non_ws_space c).
      * rewrite IH. apply non_ws_snoc_cons.
    + rewrite IH. apply non_ws_snoc_cons.
Qed.

Lemma split_sentences_non_ws s : non_ws (concat (Re.split_sentences s)) = non_ws s.
Proof. unfold Re.split_sentences. by rewrite split_sentences_go_non_ws. Qed.

(** The paragraphs left out are blank. *)
Lemma paragraphs_non_ws content : non_ws (concat (paragraphs content)) = non_ws content.
Proof.
  unfold paragraphs. rewrite <- (split_non_ws content).
  induction (split content NLNL) as [|p l IH]; [done|]. simpl.
  destruct (truthy (strip p)) eqn:Hp; simpl.
  - by rewrite !non_ws_app, IH.
  - rewrite non_ws_app, IH. destruct (strip p) eqn:Hs; [|done].
    by rewrite (strip_nil p Hs).
Qed.

Lemma join_non_ws parts : non_ws (join NLNL parts) = non_ws (concat parts).
Proof.
  induction parts as [|p [|q r] IH]; [done | by simpl; rewrite app_nil_r |].
  change (join NLNL (p :: q :: r)) with (p ++ NLNL ++ join NLNL (q :: r)).
  change (concat (p :: q :: r)) with (p ++ concat (q :: r)).
  rewrite !non_ws_app, IH. reflexivity.
Qed.

Lemma taken_flushed a piece n :
  non_ws (taken {| chunks := chunks a ++ [join NLNL (current_chunk a)];
                   current_chunk := [piece]; current_length := n |})
  = non_ws (taken a) ++ non_ws piece.
Proof.
  unfold Spec.taken. cbn [chunks current_chunk].
  rewrite concat_app. cbn [concat].
  by rewrite !app_nil_r, !non_ws_app, join_non_ws.
Qed.

Lemma taken_appended a piece n :
  non_ws (taken {| chunks := chunks a; current_chunk := current_chunk a ++ [piece];
                   current_length := n |})
  = non_ws (taken a) ++ non_ws piece.
Proof.
  unfold Spec.taken. cbn [chunks current_chunk].
  rewrite concat_app. cbn [concat].
  by rewrite !app_nil_r, !non_ws_app, app_assoc.
Qed.

Lemma for_each_taken {A} (text : A -> str) (body : acc -> A -> Exc acc) xs :
  (forall a x, x ∈ xs ->
     exists a', body a x = OK a' /\ non_ws (taken a') = non_ws (taken a) ++ non_ws (text x)) ->
  forall a, exists a',
    for_each body xs a = OK a'
    /\ non_ws (taken a') = non_ws (taken a) ++ non_ws (concat (map text xs)).
Proof.
  induction xs as [|x r IH]; intros Hbody a; simpl.
  - exists a. by rewrite app_nil_r.
  - destruct (Hbody a x) as (a1 & -> & H1); [left|]. simpl.
    destruct (IH (fun a y Hy => Hbody a y (list_elem_of_further _ _ _ Hy)) a1)
      as (a2 & -> & H2).
    exists a2. split; [done|]. by rewrite H2, H1, non_ws_app, app_assoc.
Qed.

Lemma sentence_step_taken a sentence :
  oversized sentence = false ->
  exists a', sentence_step tk CHUNK_SIZE a sentence = OK a'
             /\ non_ws (taken a') = non_ws (taken a) ++ non_ws sentence.
Proof.
  intros Hfit. unfold sentence_step. unfold Spec.oversized, n_tokens in Hfit.
  rewrite Hfit.
  destruct (CHUNK_SIZE <? Z.of_nat (current_length a + length (encode tk sentence)));
    eexists; (split; [done|]).
  - apply taken_flushed.
  - apply taken_appended.
Qed.

Lemma paragraph_step_taken content a para :
  Spec.no_hard_split tk CHUNK_SIZE content ->
  para ∈ paragraphs content ->
  exists a', paragraph_step tk CHUNK_SIZE a para = OK a'
             /\ non_ws (taken a') = non_ws (taken a) ++ non_ws para.
Proof.
  intros Hno Hpara. unfold paragraph_step.
  destruct (CHUNK_SIZE <? Z.of_nat (n_tokens tk para)) eqn:Hbig.
  - destruct (for_each_taken id (sentence_step tk CHUNK_SIZE)
                (Re.split_sentences para)) with (a := a) as (a' & -> & H).
    + intros a1 sentence Hs. apply sentence_step_taken. by apply (Hno para).
    + exists a'. split; [done|]. by rewrite H, map_id, split_sentences_non_ws.
  - destruct (CHUNK_SIZE <? Z.of_nat (current_length a + n_tokens tk para));
      eexists; (split; [done|]).
    + apply taken_flushed.
    + apply taken_appended.
Qed.

Lemma flush_non_ws a : non_ws (concat (flush a)) = non_ws (taken a).
Proof.
  unfold flush, Spec.taken. destruct (current_chunk a) as [|p r].
  - by rewrite app_nil_r.
  - rewrite concat_app. cbn [concat].
    rewrite app_nil_r, !non_ws_app, join_non_ws. cbn [concat].
    by rewrite non_ws_app.
Qed.

(** X1.  P2 away from the hard split.  When no sentence of the input is
    hard-split, the chunker returns, and its chunks put end to end hold
    the non-whitespace content of the input, in order. *)
Theorem coverage_without_hard_split (content : str) :
  Spec.no_hard_split tk CHUNK_SIZE content ->
  exists chunks,
    _split_into_chunks tk CHUNK_SIZE content = OK chunks
    /\ Spec.coverage chunks content.
Proof.
  intros Hno. unfold _split_into_chunks, Spec.coverage.
  destruct (Z.of_nat (n_tokens tk content) <=? CHUNK_SIZE).
  - eexists. split; [done|]. simpl. by rewrite app_nil_r.
  - destruct (for_each_taken id (paragraph_step tk CHUNK_SIZE) (paragraphs content))
      with (a := {| chunks := []; current_chunk := []; current_length := O |})
      as (a & -> & H).
    + intros a x Hx. by apply (paragraph_step_taken content).
    + simpl. eexists. split; [done|].
      by rewrite flush_non_ws, H, map_id, paragraphs_non_ws.
Qed.

End Coverage.

(** ** The chunker on concrete inputs *)

Section ChunkerRuns.
Import Py ContentProcessorAgent.

(** Scenario A, as a run of the passthrough: fifty tokens, a budget of 6000. *)
Lemma short_input_passthrough_witness :
  Z.of_nat (n_tokens codepoint_tokenizer (repeat 97%N 50)) <= 6000
  /\ _split_into_chunks codepoint_tokenizer 6000 (repeat 97%N 50)
     = OK [repeat 97%N 50].
Proof.
  split; [vm_compute; discriminate|].
  apply (short_input_passthrough codepoint_tokenizer 6000 (repeat 97%N 50)).
  vm_compute; discriminate.
Defined.

(** Two one-token paragraphs and a budget of two tokens: both fit the
    accumulation rule, and the chunk that joins them has more than two
    tokens, the separator being text too.  No sentence is hard-split. *)
Lemma chunk_size_bound_fails :
  ~ Spec.chunk_size_bound codepoint_tokenizer 2 (lit "a" ++ NLNL ++ lit "b").
Proof.
  intros H.
  destruct (H [lit "a" ++ NLNL ++ lit "b"] eq_refl (lit "a" ++ NLNL ++ lit "b"))
    as [Hw|Hn].
  - left.
  - vm_compute in Hw. by apply elem_of_nil in Hw.
  - vm_compute in Hn. by apply Hn.
Qed.

Lemma chunk_pieces_bound_witness :
  1 <= 2 /\
  exists chunks,
    _split_into_chunks codepoint_tokenizer 2 (lit "a" ++ NLNL ++ lit "b") = OK chunks /\
    forall c, c ∈ chunks ->
      c ∈ Spec.hard_split_windows codepoint_tokenizer 2 (lit "a" ++ NLNL ++ lit "b")
      \/ (c = lit "a" ++ NLNL ++ lit "b"
          /\ Z.of_nat (n_tokens codepoint_tokenizer (lit "a" ++ NLNL ++ lit "b")) <= 2)
      \/ Spec.pieces_within_budget codepoint_tokenizer 2 c.
Proof.
  split; [lia|].
  apply (chunk_pieces_bound codepoint_tokenizer 2 (lit "a" ++ NLNL ++ lit "b")). lia.
Defined.

(** C2.  With a budget of three tokens the middle sentence is hard-split
    and its windows are appended while [Hi.] still waits in
    [current_chunk]: the chunks come out as the windows, then [Hi.], then
    [Ok.], and put end to end they do not give back the content of the
    input in its order. *)
Theorem hard_split_overtakes_pending_chunk :
  exists chunks,
    _split_into_chunks codepoint_tokenizer 3 (lit "Hi. one two three four. Ok.")
    = OK chunks
    /\ chunks = map lit ["one"; " tw"; "o t"; "hre"; "e f"; "our"; ".";
                         "Hi."; "Ok."]%string
    /\ ~ Spec.coverage chunks (lit "Hi. one two three four. Ok.").
Proof.
  eexists. split; [|split].
  - vm_compute. reflexivity.
  - reflexivity.
  - vm_compute. discriminate.
Qed.

(** The same run through [hard_split_reorders]: the windows of the
    middle sentence, then the first sentence, then the last. *)
Lemma hard_split_reorders_witness :
  _split_into_chunks codepoint_tokenizer 3 (lit "Hi. one two three four. Ok.")
  = OK (Spec.windows_of codepoint_tokenizer 3 (lit "one two three four.")
        ++ [lit "Hi."; lit "Ok."]).
Proof.
  apply (hard_split_reorders codepoint_tokenizer 3 (lit "Hi. one two three four. Ok.")
           (lit "Hi.") (lit "one two three four.") (lit "Ok."));
    [lia | reflexivity | reflexivity | | | | | ]; vm_compute; congruence.
Defined.

(** Three sentences of three tokens each and a budget of three: nothing
    is hard-split, and the three chunks cover the input. *)
Lemma coverage_without_hard_split_witness :
  exists chunks,
    _split_into_chunks codepoint_tokenizer 3 (lit "aa. bb. cc.") = OK chunks
    /\ Spec.coverage chunks (lit "aa. bb. cc.").
Proof.
  apply (coverage_without_hard_split codepoint_tokenizer 3 (lit "aa. bb. cc.")).
  intros para Hpara _ sentence Hsentence.
  change (paragraphs (lit "aa. bb. cc.")) with [lit "aa. bb. cc."] in Hpara.
  apply list_elem_of_singleton in Hpara. subst para.
  change (Re.split_sentences (lit "aa. bb. cc."))
    with [lit "aa."; lit "bb."; lit "cc."] in Hsentence.
  apply elem_of_cons in Hsentence as [->|Hsentence]; [reflexivity|].
  apply elem_of_cons in Hsentence as [->|Hsentence]; [reflexivity|].
  apply list_elem_of_singleton in Hsentence. subst sentence. reflexivity.
Defined.

End ChunkerRuns.

(** ** Summary storage *)

Section StorageFacts.
Import Py SummaryStorage.
Context {World PyFloat : Type} (host : Host World PyFloat).

Lemma truthy_app_cons (a : str) c b : truthy (a ++ c :: b) = true.
Proof. by destruct a. Qed.

Lemma url_to_id_truthy w url : truthy (fst (_url_to_id host w url)) = true.
Proof.
  unfold _url_to_id.
  destruct (time_time host w) as [t w1]. destruct (uuid4_hex host w1) as [u w2].
  apply truthy_app_cons.
Qed.

(** What [save_summary] leaves behind: the content under the file name
    of the id, and the record of [url] replaced in the index.  The id is
    never empty, and it is the id of the record that [url] had when that
    one was not empty. *)
Lemma save_summary_effect st w url text :
  exists summary_id w' ts tu,
    save_summary host st w url text
    = (summary_id,
       {| index_file :=
            Some (<[url := {| id := summary_id; url := url; timestamp := ts;
                              timestamp_unix := tu;
                              preview := replace1 NL SP (take 200 text) |}]>
                    (_load_index st));
          files := <[_get_summary_path summary_id := text]> (files st) |},
       w')
    /\ truthy summary_id = true
    /\ (forall m, _load_index st !! url = Some m -> truthy (id m) = true ->
        summary_id = id m).
Proof.
  unfold save_summary.
  set (fresh := _url_to_id host w url).
  assert (truthy (fst fresh) = true) as Hfresh by apply url_to_id_truthy.
  set (chosen := match match _load_index st !! url with
                       | Some m => Some (id m)
                       | None => None
                       end with
                 | Some i => if truthy i then (i, w) else fresh
                 | None => fresh
                 end).
  assert (truthy (fst chosen) = true
          /\ forall m, _load_index st !! url = Some m -> truthy (id m) = true ->
                       fst chosen = id m) as [Ht Hsame].
  { subst chosen. destruct (_load_index st !! url) as [m|].
    - destruct (truthy (id m)) eqn:Hm.
      + split; [done|]. by intros ? [= <-] _.
      + split; [done|]. intros ? [= <-]. congruence.
    - split; [done|]. by intros. }
  destruct chosen as [summary_id wa]. simpl in Ht, Hsame.
  destruct (strftime_now host wa) as [ts wb].
  destruct (time_time host wb) as [tu wc].
  by exists summary_id, wc, ts, tu.
Qed.

Lemma save_then_get st w url text summary_id st' w' :
  save_summary host st w url text = (summary_id, st', w') ->
  exists info, get_summary_by_url st' url = Some info
               /\ content info = text /\ info_id info = summary_id.
Proof.
  intros H.
  destruct (save_summary_effect st w url text) as (i & wa & ts & tu & E & _).
  rewrite E in H. injection H as <- <- <-.
  unfold get_summary_by_url, _load_index. cbn [index_file files].
  rewrite !lookup_insert_eq. cbn [id]. rewrite ?lookup_insert_eq. by eexists.
Qed.


(** C10.  When the index has a record for [url] whose summary file is
    not there, [get_summary_by_url] returns [None], as it does for a URL
    that the index does not have. *)
Theorem missing_file_reads_as_absent
    (st : Store PyFloat) (url absent : str) (m : SummaryMetadata PyFloat) :
  _load_index st !! url = Some m ->
  files st !! _get_summary_path (id m) = None ->
  _load_index st !! absent = None ->
  get_summary_by_url st url = None
  /\ get_summary_by_url st absent = get_summary_by_url st url.
Proof.
  intros Hm Hf Ha. unfold get_summary_by_url. by rewrite Hm, Hf, Ha.
Qed.

End StorageFacts.

(** ** The orchestrator *)

Section OrchestratorFacts.
Import Py SummaryStorage WebFetcherAgent SummarizationAgentTeam.
Context {World PyFloat : Type} (host : Host World PyFloat).
Variable tk : Tokenizer.
Variable CHUNK_SIZE : Z.

Local Abbreviation summarize_each := (summarize_each host).
Local Abbreviation summarize_step := (summarize_step host).
Local Abbreviation start_summarization := (start_summarization host tk CHUNK_SIZE).

Lemma combine_snoc {A B} (l : list A) (k : list B) a b :
  length l = length k -> combine (l ++ [a]) (k ++ [b]) = combine l k ++ [(a, b)].
Proof.
  revert k. induction l as [|x l IH]; intros [|y k] Hlen; simpl in *; try lia.
  - done.
  - f_equal. apply IH. lia.
Qed.

Lemma enumerate_snoc {A} (l : list A) x :
  enumerate (l ++ [x]) = enumerate l ++ [(length l, x)].
Proof.
  unfold enumerate. rewrite length_app. simpl.
  replace (length l + 1)%nat with (S (length l)) by lia.
  rewrite seq_S. simpl. apply combine_snoc. by rewrite length_seq.
Qed.

Lemma summarize_each_snoc w chunks chunk :
  summarize_each w (chunks ++ [chunk])
  = summarize_step (summarize_each w chunks) (length chunks, chunk).
Proof.
  unfold SummarizationAgentTeam.summarize_each.
  by rewrite enumerate_snoc, fold_left_app.
Qed.

(** One more chunk: one more summary, at the end. *)
Lemma summarize_each_last w chunks chunk :
  fst (summarize_each w (chunks ++ [chunk]))
  = fst (summarize_each w chunks)
    ++ [match fst (generate_summary host (snd (summarize_each w chunks)) chunk) with
        | OK summary_obj => to_text summary_obj
        | Raise _ => error_marker (length chunks + 1)
        end].
Proof.
  rewrite summarize_each_snoc.
  destruct (summarize_each w chunks) as [summaries w1].
  unfold SummarizationAgentTeam.summarize_step. cbn [fst snd].
  by destruct (generate_summary host w1 chunk) as [[obj|e] w2].
Qed.

Lemma summarize_each_length w chunks :
  length (fst (summarize_each w chunks)) = length chunks.
Proof.
  induction chunks as [|chunk chunks IH] using rev_ind; [done|].
  rewrite summarize_each_last, !length_app, IH. done.
Qed.

Lemma lit_inj a b : lit a = lit b -> a = b.
Proof.
  revert b. induction a as [|x a IH]; intros [|y b]; simpl; try done.
  intros [= Hxy Hab]. f_equal; [|by apply IH].
  by rewrite <- (ascii_N_embedding x), <- (ascii_N_embedding y), Hxy.
Qed.

Lemma str_of_nat_inj i j : str_of_nat i = str_of_nat j -> i = j.
Proof.
  unfold str_of_nat, str_of_Z. intros H%lit_inj.
  assert (forall z, Z.to_int z <> Decimal.Pos Decimal.Nil
                    /\ Z.to_int z <> Decimal.Neg Decimal.Nil) as Hnil.
  { intros z. split; intros E; pose proof (f_equal Z.of_int E) as E0;
      rewrite DecimalZ.of_to in E0; simpl in E0; by subst z. }
  apply Nat2Z.inj, DecimalZ.to_int_inj.
  assert (Some (Z.to_int (Z.of_nat i)) = Some (Z.to_int (Z.of_nat j))) as [= E]; [|done].
  rewrite <- (NilZero.isi (Z.to_int (Z.of_nat i))) by apply Hnil.
  rewrite <- (NilZero.isi (Z.to_int (Z.of_nat j))) by apply Hnil.
  by rewrite H.
Qed.

(** The marker tells which chunk failed. *)
Lemma error_marker_inj i j : error_marker i = error_marker j -> i = j.
Proof.
  unfold error_marker. intros H.
  apply app_inv_head, app_inv_head, app_inv_head in H.
  by apply app_inv_tail, str_of_nat_inj in H.
Qed.

(** C4.  The loop over the chunks gives one summary per chunk, in the
    order of the chunks: the text of the reply when [generate_summary]
    returns, and the marker numbered like the chunk when it raises.  The
    loop itself never raises, and distinct chunks have distinct markers. *)
Theorem summary_chunk_pairing (w : World) (content_chunks : list str) :
  length (fst (summarize_each w content_chunks)) = length content_chunks
  /\ (forall k chunk, content_chunks !! k = Some chunk ->
        fst (summarize_each w content_chunks) !! k
        = Some match fst (generate_summary host
                            (snd (summarize_each w (take k content_chunks))) chunk) with
               | OK summary_obj => to_text summary_obj
               | Raise _ => error_marker (k + 1)
               end)
  /\ (forall i j, error_marker i = error_marker j -> i = j).
Proof.
  split; [apply summarize_each_length|]. split; [|apply error_marker_inj].
  induction content_chunks as [|last chunks IH] using rev_ind; intros k chunk Hk.
  - by rewrite lookup_nil in Hk.
  - rewrite summarize_each_last.
    destruct (decide (k < length chunks)%nat) as [Hlt|Hge].
    + rewrite lookup_app_l in Hk by done.
      rewrite lookup_app_l by (by rewrite summarize_each_length).
      rewrite take_app_le by lia. by apply IH.
    + assert (k = length chunks) as ->.
      { apply lookup_lt_Some in Hk. rewrite length_app in Hk. simpl in Hk. lia. }
      rewrite list_lookup_middle in Hk by done. injection Hk as ->.
      rewrite list_lookup_middle by (by rewrite summarize_each_length).
      by rewrite take_app_length.
Qed.

(** Lines 107-125 when the integrator raises. *)
Lemma integrate_fallback w chunk_summaries url e w' :
  (2 <= length chunk_summaries)%nat ->
  integrate_summaries host w chunk_summaries url = (Raise e, w') ->
  integrate host w chunk_summaries url
  = (join ContentProcessorAgent.NLNL chunk_summaries, w',
     [IntegrateSummaries chunk_summaries url]).
Proof.
  intros Hlen Hraise. unfold integrate.
  destruct chunk_summaries as [|s1 [|s2 rest]]; simpl in Hlen; try lia.
  by rewrite Hraise.
Qed.


(** C6.  When the cache has nothing for [url] and [fetch_webpage] gives
    [None] or the empty text, the run raises the fetch error, having
    called the fetcher only, and the summary storage is what it was. *)
Theorem fetch_failure_caches_nothing team w url r pages w1 :
  get_summary_by_url (storage team) url = None ->
  fetch_webpage host (web_fetcher team) w url = (r, pages, w1) ->
  r = None \/ r = Some [] ->
  exists team',
    start_summarization team w url
    = (Raise (fetch_error url), team', w1, [FetchWebpage url])
    /\ storage team' = storage team.
Proof.
  intros Hget Hfetch Hr. unfold SummarizationAgentTeam.start_summarization.
  rewrite Hget, Hfetch. destruct Hr as [-> | ->]; by eexists.
Qed.

(** A fetch that raises, for a page not yet on disk, is such a failure. *)
Lemma fetch_webpage_failure pg w url e w1 :
  content_files pg !! _get_content_path host url = None ->
  fetch host w url = (Raise e, w1) ->
  fetch_webpage host pg w url = (None, pg, w1).
Proof. intros Hnew Hraise. unfold fetch_webpage. by rewrite Hnew, Hraise. Qed.

(** C7.  When the integrator raises on two or more summaries, the
    integration step gives the summaries joined by blank lines, in their
    order; and a run that gets there returns that text and caches it. *)
Theorem integration_failure_fallback :
  (forall w chunk_summaries url e w',
     (2 <= length chunk_summaries)%nat ->
     integrate_summaries host w chunk_summaries url = (Raise e, w') ->
     fst (fst (integrate host w chunk_summaries url))
     = join ContentProcessorAgent.NLNL chunk_summaries)
  /\ (forall team w url webpage_content pages w1 content_chunks chunk_summaries w2 e w3,
       get_summary_by_url (storage team) url = None ->
       fetch_webpage host (web_fetcher team) w url = (Some webpage_content, pages, w1) ->
       webpage_content <> [] ->
       ContentProcessorAgent.process_content tk CHUNK_SIZE webpage_content
       = OK content_chunks ->
       summarize_each w1 content_chunks = (chunk_summaries, w2) ->
       (2 <= length chunk_summaries)%nat ->
       integrate_summaries host w2 chunk_summaries url = (Raise e, w3) ->
       exists team' w' calls,
         start_summarization team w url
         = (OK (join ContentProcessorAgent.NLNL chunk_summaries), team', w', calls)
         /\ content <$> get_summary_by_url (storage team') url
            = Some (join ContentProcessorAgent.NLNL chunk_summaries)).
Proof.
  split.
  - intros w chunk_summaries url e w' Hlen Hraise.
    by rewrite (integrate_fallback _ _ _ _ _ Hlen Hraise).
  - intros team w url webpage_content pages w1 content_chunks chunk_summaries
      w2 e w3 Hget Hfetch Hpage Hchunks Hsum Hlen Hraise.
    unfold SummarizationAgentTeam.start_summarization.
    rewrite Hget, Hfetch. destruct webpage_content as [|c page]; [done|].
    rewrite Hchunks, Hsum, (integrate_fallback _ _ _ _ _ Hlen Hraise).
    cbn [storage].
    destruct (save_summary host (storage team) w3 url
                (join ContentProcessorAgent.NLNL chunk_summaries))
      as [[summary_id store] w4] eqn:Hsave.
    destruct (save_then_get host _ _ _ _ _ _ _ Hsave) as (info & Hinfo & <- & _).
    eexists _, _, _. split; [done|]. cbn [storage]. by rewrite Hinfo.
Qed.

End OrchestratorFacts.

(** ** Runs in the scripted world *)

Section Runs.
Import Py SummaryStorage WebFetcherAgent SummarizationAgentTeam.

Local Abbreviation NLNL := ContentProcessorAgent.NLNL.
Local Abbreviation x_url := (lit "http://x").


Lemma missing_file_reads_as_absent_witness :
  get_summary_by_url dangling_store x_url = None
  /\ get_summary_by_url dangling_store (lit "http://y")
     = get_summary_by_url dangling_store x_url.
Proof.
  apply (missing_file_reads_as_absent dangling_store x_url (lit "http://y")
           {| id := lit "0123abcd-1700000000-beef"; url := x_url;
              timestamp := lit "2024-01-01 00:00:00";
              timestamp_unix := 1700000000; preview := lit "gone" |});
    reflexivity.
Defined.

(** The second of three chunks fails: its place holds the marker of
    chunk 2, between the texts of the two replies. *)
Lemma summary_chunk_pairing_witness :
  fst (summarize_each (toy_host second_chunk_fails) toy_world
         [lit "aa."; lit "bb."; lit "cc."])
  = [lit "first"; error_marker 2; lit "third"].
Proof.
  destruct (summary_chunk_pairing (toy_host second_chunk_fails) toy_world
              [lit "aa."; lit "bb."; lit "cc."]) as (_ & Hk & _).
  apply list_eq. intros [|[|[|k]]].
  - by rewrite (Hk 0%nat (lit "aa.")).
  - by rewrite (Hk 1%nat (lit "bb.")).
  - by rewrite (Hk 2%nat (lit "cc.")).
  - reflexivity.
Defined.


Lemma fetch_failure_caches_nothing_witness :
  exists team',
    start_summarization (toy_host unreachable_page) codepoint_tokenizer 3
      empty_team toy_world x_url
    = (Raise (fetch_error x_url), team', tick toy_world, [FetchWebpage x_url])
    /\ storage team' = storage empty_team.
Proof.
  apply (fetch_failure_caches_nothing (toy_host unreachable_page) codepoint_tokenizer 3
           empty_team toy_world x_url None (web_fetcher empty_team) (tick toy_world)).
  - reflexivity.
  - reflexivity.
  - by left.
Defined.

(** Scenario D with a failing backend. *)
Lemma integration_failure_fallback_witness :
  fst (fst (integrate (toy_host scenario_D) toy_world
              [lit "A discusses X."; lit "B discusses Y."; lit "C discusses Z."] x_url))
  = lit "A discusses X." ++ NLNL ++ lit "B discusses Y." ++ NLNL ++ lit "C discusses Z."
  /\ exists team' w' calls,
       start_summarization (toy_host scenario_D) codepoint_tokenizer 3
         empty_team toy_world x_url
       = (OK (lit "A discusses X." ++ NLNL ++ lit "B discusses Y." ++ NLNL
              ++ lit "C discusses Z."), team', w', calls)
       /\ content <$> get_summary_by_url (storage team') x_url
          = Some (lit "A discusses X." ++ NLNL ++ lit "B discusses Y." ++ NLNL
                  ++ lit "C discusses Z.").
Proof.
  destruct (integration_failure_fallback (toy_host scenario_D) codepoint_tokenizer 3)
    as [Hstep Hrun].
  split.
  - apply (Hstep toy_world
             [lit "A discusses X."; lit "B discusses Y."; lit "C discusses Z."]
             x_url (Exception (lit "backend down")) (tick toy_world));
      [simpl; lia | reflexivity].
  - apply (Hrun empty_team toy_world x_url (lit "aa. bb. cc.")
             (fetch_webpage (toy_host scenario_D) (web_fetcher empty_team)
                toy_world x_url).1.2
             (tick toy_world)
             [lit "aa."; lit "bb."; lit "cc."]
             [lit "A discusses X."; lit "B discusses Y."; lit "C discusses Z."]
             {| ticks := 1; summarizer_calls := 3 |}
             (Exception (lit "backend down"))
             {| ticks := 2; summarizer_calls := 3 |});
      [reflexivity | reflexivity | discriminate | reflexivity | reflexivity
      | simpl; lia | reflexivity].
Defined.

End Runs.

(** ** More on cleaning *)

Section CleaningMore.
Import Py ContentProcessorAgent.

Lemma lstrip_fixed s : lstrip (lstrip s) = lstrip s.
Proof.
  destruct (lstrip s) as [|c r] eqn:E; [done|].
  cbn [lstrip]. by rewrite (lstrip_head s c r E).
Qed.

Lemma lstrip_prefix_fixed y pre suf :
  lstrip y = y -> y = pre ++ suf -> lstrip pre = pre.
Proof.
  intros Hy ->. destruct pre as [|c r]; [done|].
  cbn [lstrip]. simpl in Hy. destruct (isspace c) eqn:Hc; [|done].
  destruct (lstrip_suffix (r ++ suf)) as [q Hq].
  apply (f_equal length) in Hy. rewrite Hq in Hy at 2.
  simpl in Hy. rewrite length_app in Hy. lia.
Qed.

(** What [strip] returns has no whitespace at either end. *)
Lemma strip_ends s :
  lstrip (strip s) = strip s /\ lstrip (rev (strip s)) = rev (strip s).
Proof.
  unfold strip, rstrip. split.
  - destruct (rstrip_prefix (lstrip s)) as [suf H].
    by apply (lstrip_prefix_fixed (lstrip s) _ suf (lstrip_fixed s)).
  - by rewrite rev_involutive, lstrip_fixed.
Qed.

Lemma strip_fixed t :
  lstrip t = t -> lstrip (rev t) = rev t -> strip t = t.
Proof.
  intros H1 H2. unfold strip, rstrip. by rewrite H1, H2, rev_involutive.
Qed.

Lemma sub_blank_lines_go_no_NL s : NL ∉ s -> Re.sub_blank_lines_go O s = s.
Proof.
  induction s as [|c r IH]; [done|]. intros [Hc Hr]%not_elem_of_cons.
  cbn [Re.sub_blank_lines_go]. unfold Re.blank_lines_match.
  destruct (N.eqb_spec c NL) as [E|_]; [by subst|].
  cbn [andb]. by rewrite IH.
Qed.

Lemma sub_unwanted_kept s : Forall (fun c => Re.kept c = true) (Re.sub_unwanted s).
Proof.
  unfold Re.sub_unwanted. apply Forall_forall. intros c Hc.
  apply list_elem_of_In, filter_In in Hc. tauto.
Qed.

Lemma sub_unwanted_fixed s :
  Forall (fun c => Re.kept c = true) s -> Re.sub_unwanted s = s.
Proof.
  unfold Re.sub_unwanted. induction 1 as [|c r Hc _ IH]; [done|].
  simpl. by rewrite Hc, IH.
Qed.

Lemma kept_space c : isspace c = true -> Re.kept c = true.
Proof. intros H. unfold Re.kept. rewrite H. by rewrite !orb_true_r. Qed.

Lemma sub_ws_go_kept s : forall in_run,
  Forall (fun c => Re.kept c = true) s ->
  Forall (fun c => Re.kept c = true) (Re.sub_ws_go in_run s).
Proof.
  induction s as [|c r IH]; intros in_run Hs; [done|].
  apply Forall_cons in Hs as [Hc Hr]. cbn [Re.sub_ws_go].
  destruct (isspace c); [destruct in_run|]; auto using Forall_cons.
Qed.

Lemma Forall_infix {A} (P : A -> Prop) pre mid suf :
  Forall P (pre ++ mid ++ suf) -> Forall P mid.
Proof. intros H. by apply Forall_app in H as [_ [H _]%Forall_app]. Qed.

Lemma single_spaced_tail c r : Spec.single_spaced (c :: r) -> Spec.single_spaced r.
Proof. intros H i x Hx Hsp. exact (H (S i) x Hx Hsp). Qed.

Lemma sub_ws_go_fixed s : forall in_run,
  Spec.single_spaced s ->
  (in_run = true -> forall d, s !! O = Some d -> isspace d = false) ->
  Re.sub_ws_go in_run s = s.
Proof.
  induction s as [|c r IH]; intros in_run Hs Hhead; [done|].
  cbn [Re.sub_ws_go]. destruct (isspace c) eqn:Hc.
  - destruct in_run; [by rewrite (Hhead eq_refl c eq_refl) in Hc|].
    destruct (Hs O c eq_refl Hc) as [-> Hnext].
    rewrite IH; [done | by eapply single_spaced_tail | by intros _].
  - rewrite IH; [done | by eapply single_spaced_tail | done].
Qed.

(** X3.  Cleaning a cleaned text changes nothing; a cleaned text holds
    only code points of the class of line 40, and no whitespace at its
    ends. *)
Theorem clean_content_idempotent (content : str) :
  _clean_content (_clean_content content) = _clean_content content
  /\ Forall (fun c => Re.kept c = true) (_clean_content content)
  /\ strip (_clean_content content) = _clean_content content.
Proof.
  pose proof (clean_content_single_spaced content) as Hs.
  pose proof (single_spaced_no_NL _ Hs) as Hn.
  assert (Forall (fun c => Re.kept c = true) (_clean_content content)) as Hk.
  { unfold _clean_content.
    destruct (strip_infix (Re.sub_ws (Re.sub_unwanted (Re.sub_blank_lines content))))
      as (pre & suf & H).
    apply (Forall_infix _ pre _ suf). rewrite <- H.
    apply sub_ws_go_kept, sub_unwanted_kept. }
  assert (strip (_clean_content content) = _clean_content content) as He.
  { unfold _clean_content. apply strip_fixed; apply strip_ends. }
  split; [|done].
  unfold _clean_content at 1. unfold Re.sub_blank_lines.
  rewrite sub_blank_lines_go_no_NL by done.
  rewrite sub_unwanted_fixed by done.
  unfold Re.sub_ws. rewrite sub_ws_go_fixed; done.
Qed.

End CleaningMore.

(** ** The hard split, and budgets below one *)

Section ChunkerEdges.
Import Py ContentProcessorAgent.
Variable tk : Tokenizer.

(** Number of windows of [k] tokens for [n] tokens. *)
Lemma windows_count_step (n k : nat) :
  (0 < k)%nat -> (0 < n)%nat ->
  ((n + k - 1) / k = S ((n - k + k - 1) / k))%nat.
Proof.
  intros Hk Hn. destruct (le_lt_dec k n) as [Hle|Hlt].
  - replace (n + k - 1)%nat with ((n - k + k - 1) + 1 * k)%nat by lia.
    rewrite Nat.div_add by lia. lia.
  - replace (n - k + k - 1)%nat with (k - 1)%nat by lia.
    rewrite (Nat.div_small (k - 1) k) by lia.
    symmetry. apply (Nat.div_unique _ _ _ (n - 1)); lia.
Qed.

Lemma slices_concat (k : nat) : (0 < k)%nat -> forall n (toks : list N),
  n = ((length toks + k - 1) / k)%nat ->
  concat (map (fun j => take k (drop (j * k) toks)) (seq 0 n)) = toks.
Proof.
  intros Hk. induction n as [|n IH]; intros toks Hn.
  - destruct toks as [|t r]; [done|]. cbn [length] in Hn.
    assert (1 <= (S (length r) + k - 1) / k)%nat; [|lia].
    apply Nat.div_le_lower_bound; lia.
  - destruct toks as [|t r].
    { cbn [length] in Hn. rewrite Nat.div_small in Hn by lia. lia. }
    rewrite windows_count_step in Hn by (cbn [length]; lia). injection Hn as Hn.
    cbn [seq map concat]. rewrite <- seq_shift, map_map.
    rewrite Nat.mul_0_l, drop_0.
    transitivity (take k (t :: r) ++ drop k (t :: r)); [|apply take_drop].
    f_equal.
    transitivity (concat (map (fun j => take k (drop (j * k) (drop k (t :: r))))
                            (seq 0 n))).
    + apply f_equal, map_ext. intros j.
      by rewrite drop_drop, Nat.mul_succ_l, (Nat.add_comm (j * k)).
    + apply IH. rewrite length_drop. exact Hn.
Qed.

(** X4.  With a budget of at least one token, the hard split cuts the
    tokens of a sentence into consecutive slices that together are all
    of them, each of one to [CHUNK_SIZE] tokens, as many as the length
    divided by the budget, rounded up; the windows are their decodings. *)
Theorem hard_split_covers_tokens (CHUNK_SIZE : Z) (sent_tokens : list N) :
  1 <= CHUNK_SIZE ->
  exists slices,
    hard_split tk CHUNK_SIZE sent_tokens = OK (map (decode tk) slices)
    /\ concat slices = sent_tokens
    /\ Forall (fun sl => 1 <= Z.of_nat (length sl) <= CHUNK_SIZE) slices
    /\ Z.of_nat (length slices)
       = (Z.of_nat (length sent_tokens) + CHUNK_SIZE - 1) / CHUNK_SIZE.
Proof.
  intros HK. set (k := Z.to_nat CHUNK_SIZE).
  assert (0 < k)%nat as Hk by lia.
  set (n := ((length sent_tokens + k - 1) / k)%nat).
  exists (map (fun j => take k (drop (j * k) sent_tokens)) (seq 0 n)).
  split; [|split; [|split]].
  - unfold hard_split, range.
    destruct (Z.eqb_spec CHUNK_SIZE 0); [lia|].
    destruct (Z.ltb_spec CHUNK_SIZE 0); [lia|].
    cbn [bind]. by rewrite !map_map.
  - by apply slices_concat.
  - apply Forall_forall. intros sl [j [<- Hj]]%list_elem_of_In%in_map_iff.
    apply in_seq in Hj. rewrite length_take, length_drop.
    assert (n * k <= length sent_tokens + k - 1)%nat
      by (subst n; rewrite Nat.mul_comm; apply Nat.Div0.mul_div_le).
    assert (S j * k <= n * k)%nat by (apply Nat.mul_le_mono_r; lia).
    lia.
  - rewrite length_map, length_seq. subst n.
    rewrite Nat2Z.inj_div, Nat2Z.inj_sub, Nat2Z.inj_add by lia.
    f_equal; lia.
Qed.

(** X5.  With a negative budget every paragraph and every sentence is
    over it and every hard split is empty: no input gives any chunk. *)
Theorem negative_chunk_size_drops_everything (CHUNK_SIZE : Z) (content : str) :
  CHUNK_SIZE < 0 ->
  _split_into_chunks tk CHUNK_SIZE content = OK [].
Proof.
  intros HK.
  set (a0 := {| chunks := []; current_chunk := []; current_length := O |}).
  assert (forall sentence, sentence_step tk CHUNK_SIZE a0 sentence = OK a0) as Hs.
  { intros sentence. unfold sentence_step, hard_split, range.
    destruct (Z.ltb_spec CHUNK_SIZE (Z.of_nat (length (encode tk sentence)))); [|lia].
    destruct (Z.eqb_spec CHUNK_SIZE 0); [lia|].
    destruct (Z.ltb_spec CHUNK_SIZE 0); [|lia]. done. }
  assert (forall sentences, for_each (sentence_step tk CHUNK_SIZE) sentences a0 = OK a0)
    as Hss.
  { induction sentences as [|x r IH]; [done|]. simpl. by rewrite Hs. }
  assert (forall paras, for_each (paragraph_step tk CHUNK_SIZE) paras a0 = OK a0) as Hps.
  { induction paras as [|x r IH]; [done|]. simpl. unfold paragraph_step at 1.
    destruct (Z.ltb_spec CHUNK_SIZE (Z.of_nat (n_tokens tk x))); [|lia].
    by rewrite Hss. }
  unfold _split_into_chunks.
  destruct (Z.leb_spec (Z.of_nat (n_tokens tk content)) CHUNK_SIZE); [lia|].
  fold a0. by rewrite Hps.
Qed.

Lemma for_each_raises {A S} (body : S -> A -> Exc S) (e : exn) xs x0 :
  (forall a x e', body a x = Raise e' -> e' = e) ->
  x0 ∈ xs -> (forall a, body a x0 = Raise e) ->
  forall a, for_each body xs a = Raise e.
Proof.
  intros Honly Hin Hx0. induction xs as [|x r IH]; intros a.
  - by apply elem_of_nil in Hin.
  - simpl. destruct (body a x) as [a1|e1] eqn:E.
    + simpl. apply elem_of_cons in Hin as [->|Hin]; [|by apply IH].
      by rewrite Hx0 in E.
    + simpl. by rewrite (Honly _ _ _ E).
Qed.

Lemma for_each_raises_only {A S} (body : S -> A -> Exc S) (e : exn) xs :
  (forall a x e', body a x = Raise e' -> e' = e) ->
  forall a e', for_each body xs a = Raise e' -> e' = e.
Proof.
  intros Honly. induction xs as [|x r IH]; intros a e'; simpl; [done|].
  destruct (body a x) as [a1|e1] eqn:E; simpl.
  - apply IH.
  - intros [= <-]. by apply (Honly _ _ _ E).
Qed.

Lemma sentence_step_zero_raises_only a sentence e' :
  sentence_step tk 0 a sentence = Raise e' -> e' = Spec.range_error.
Proof.
  unfold sentence_step, hard_split, range. simpl.
  destruct (0 <? Z.of_nat (length (encode tk sentence))); [by intros [= <-]|].
  by destruct (0 <? Z.of_nat (current_length a + length (encode tk sentence))).
Qed.

Lemma paragraph_step_zero_raises_only a para e' :
  paragraph_step tk 0 a para = Raise e' -> e' = Spec.range_error.
Proof.
  unfold paragraph_step.
  destruct (0 <? Z.of_nat (n_tokens tk para)).
  - apply for_each_raises_only. intros ? ? ?. apply sentence_step_zero_raises_only.
  - by destruct (0 <? Z.of_nat (current_length a + n_tokens tk para)).
Qed.

(** X6.  With a budget of zero the chunker raises the [ValueError] of
    [range] as soon as a paragraph with tokens has a sentence with
    tokens: the step of the hard split is zero. *)
Theorem zero_chunk_size_raises (content para sentence : str) :
  (0 < n_tokens tk content)%nat ->
  para ∈ paragraphs content -> (0 < n_tokens tk para)%nat ->
  sentence ∈ Re.split_sentences para -> (0 < n_tokens tk sentence)%nat ->
  _split_into_chunks tk 0 content = Raise Spec.range_error.
Proof.
  intros Hc Hpara Hp Hsentence Hs. unfold _split_into_chunks.
  destruct (Z.leb_spec (Z.of_nat (n_tokens tk content)) 0); [lia|].
  rewrite (for_each_raises (paragraph_step tk 0) Spec.range_error _ para); [done| |done|].
  - intros ? ? ?. apply paragraph_step_zero_raises_only.
  - intros a. unfold paragraph_step.
    destruct (Z.ltb_spec 0 (Z.of_nat (n_tokens tk para))); [|lia].
    apply (for_each_raises _ _ _ sentence); [|done|].
    + intros ? ? ?. apply sentence_step_zero_raises_only.
    + intros a'. unfold sentence_step, hard_split, range. simpl.
      unfold n_tokens in Hs.
      by destruct (Z.ltb_spec 0 (Z.of_nat (length (encode tk sentence)))); [|lia].
Qed.

End ChunkerEdges.

Section ChunkerEdgeRuns.
Import Py ContentProcessorAgent.

(** Seven tokens and a budget of three: windows of 3, 3 and 1 tokens. *)
Lemma hard_split_covers_tokens_witness :
  exists slices,
    hard_split codepoint_tokenizer 3 (lit "abcdefg")
    = OK (map (decode codepoint_tokenizer) slices)
    /\ concat slices = lit "abcdefg"
    /\ Forall (fun sl => 1 <= Z.of_nat (length sl) <= 3) slices
    /\ Z.of_nat (length slices) = (Z.of_nat (length (lit "abcdefg")) + 3 - 1) / 3.
Proof. apply (hard_split_covers_tokens codepoint_tokenizer 3 (lit "abcdefg")). lia. Defined.

Lemma negative_chunk_size_drops_everything_witness :
  _split_into_chunks codepoint_tokenizer (-1) (lit "Hi. Ok.") = OK [].
Proof.
  apply (negative_chunk_size_drops_everything codepoint_tokenizer (-1) (lit "Hi. Ok.")).
  lia.
Defined.

Lemma zero_chunk_size_raises_witness :
  _split_into_chunks codepoint_tokenizer 0 (lit "Hi. Ok.") = Raise Spec.range_error.
Proof.
  apply (zero_chunk_size_raises codepoint_tokenizer (lit "Hi. Ok.") (lit "Hi. Ok.")
           (lit "Hi.")).
  - apply Nat.ltb_lt. reflexivity.
  - left.
  - apply Nat.ltb_lt. reflexivity.
  - left.
  - apply Nat.ltb_lt. reflexivity.
Defined.

End ChunkerEdgeRuns.

(** ** Summary storage: round trip, frame, lookup by id, deletion *)

Section StorageMore.
Import Py SummaryStorage SummaryStorageById.
Context {World PyFloat : Type} (host : Host World PyFloat).
Variable items :
  gmap str (SummaryMetadata PyFloat) -> list (str * SummaryMetadata PyFloat).
Hypothesis items_spec : forall index u m, (u, m) ∈ items index <-> index !! u = Some m.

Local Abbreviation get_summary_by_id := (get_summary_by_id items).
Local Abbreviation delete_summary := (delete_summary items).
Local Abbreviation target_url_of := (target_url_of items).

Lemma summary_path_inj i j : _get_summary_path i = _get_summary_path j -> i = j.
Proof. unfold _get_summary_path. by intros H%app_inv_tail. Qed.

Lemma replace1_no_NL s : NL ∉ replace1 NL SP s.
Proof.
  unfold replace1. intros [c [E _]]%list_elem_of_In%in_map_iff.
  destruct (N.eqb_spec c NL); [discriminate E | congruence].
Qed.


Lemma save_summary_other_record st w url text summary_id st' w' other :
  save_summary host st w url text = (summary_id, st', w') ->
  other <> url ->
  _load_index st' !! other = _load_index st !! other.
Proof.
  intros H Hne.
  destruct (save_summary_effect host st w url text) as (i & wa & ts & tu & E & _).
  rewrite E in H. injection H as <- <- <-.
  unfold _load_index at 1. cbn [index_file]. by rewrite lookup_insert_ne.
Qed.

(** X8.  Saving a summary for one URL leaves the record of every other
    URL in the index as it was, and the summary read for another URL as
    it was unless that URL's record has the id that was written. *)
Theorem save_summary_frame st w url text summary_id st' w' other :
  save_summary host st w url text = (summary_id, st', w') ->
  other <> url ->
  _load_index st' !! other = _load_index st !! other
  /\ ((forall m, _load_index st !! other = Some m -> id m <> summary_id) ->
      get_summary_by_url st' other = get_summary_by_url st other).
Proof.
  intros H Hne.
  destruct (save_summary_effect host st w url text) as (i & wa & ts & tu & E & _).
  rewrite E in H. injection H as <- <- <-.
  unfold get_summary_by_url, _load_index. cbn [index_file files].
  rewrite !lookup_insert_ne by done. split; [done|]. intros Hid.
  destruct (match index_file st with Some index => index | None => ∅ end !! other)
    as [m|] eqn:Hm; [|done].
  rewrite lookup_insert_ne; [done|].
  intros Hp%summary_path_inj. by apply (Hid m).
Qed.

Lemma find_id_Some index summary_id u m :
  List.find (fun '(_, metadata) => bool_decide (id metadata = summary_id))
            (items index) = Some (u, m) ->
  index !! u = Some m /\ id m = summary_id.
Proof.
  intros [Hin Hid]%find_some. apply bool_decide_eq_true in Hid.
  split; [|done]. by apply items_spec, list_elem_of_In.
Qed.

Lemma find_id_None index summary_id :
  List.find (fun '(_, metadata) => bool_decide (id metadata = summary_id))
            (items index) = None ->
  forall u m, index !! u = Some m -> id m <> summary_id.
Proof.
  intros Hnone u m Hm Hid.
  apply items_spec, list_elem_of_In in Hm.
  pose proof (find_none _ _ Hnone _ Hm) as H. simpl in H.
  by apply bool_decide_eq_false in H.
Qed.

Lemma find_id_is_Some index summary_id u m :
  index !! u = Some m -> id m = summary_id ->
  exists u' m',
    List.find (fun '(_, metadata) => bool_decide (id metadata = summary_id))
              (items index) = Some (u', m').
Proof.
  intros Hm Hid.
  destruct (List.find _ (items index)) as [[u' m']|] eqn:E; [by eauto|].
  by destruct (find_id_None _ _ E u m Hm).
Qed.

Lemma target_url_of_Some index summary_id u :
  target_url_of index summary_id = Some u ->
  u <> [] /\ exists m, index !! u = Some m /\ id m = summary_id.
Proof.
  unfold SummaryStorageById.target_url_of.
  destruct (List.find _ (items index)) as [[u' m']|] eqn:E; [|done].
  destruct u' as [|c r]; [done|]. intros [= <-].
  split; [done|]. exists m'. by apply find_id_Some.
Qed.



Lemma is_key_spec index url_or_id :
  existsb (fun '(stored_url, _) => bool_decide (stored_url = url_or_id)) (items index)
  = bool_decide (is_Some (index !! url_or_id)).
Proof.
  apply eq_true_iff_eq. rewrite existsb_exists, bool_decide_eq_true. split.
  - intros [[u m] [Hin Heq]]. apply bool_decide_eq_true in Heq as ->.
    exists m. by apply items_spec, list_elem_of_In.
  - intros [m Hm]. exists (url_or_id, m). split.
    + by apply list_elem_of_In, items_spec.
    + by apply bool_decide_eq_true.
Qed.

(** X11.  Deleting by a URL that the index has removes the record under
    that key and the file of its id, whatever ids other records have;
    the summary of the URL is gone and the other records stay. *)
Theorem delete_summary_by_url (st : Store PyFloat) (url : str) m :
  _load_index st !! url = Some m ->
  delete_summary st url
  = (true, {| index_file := Some (delete url (_load_index st));
              files := delete (_get_summary_path (id m)) (files st) |})
  /\ get_summary_by_url (delete_summary st url).2 url = None
  /\ (forall other, other <> url ->
        _load_index (delete_summary st url).2 !! other = _load_index st !! other).
Proof.
  intros Hm.
  assert (delete_summary st url
          = (true, {| index_file := Some (delete url (_load_index st));
                      files := delete (_get_summary_path (id m)) (files st) |})) as E.
  { unfold SummaryStorageById.delete_summary. rewrite is_key_spec.
    rewrite bool_decide_eq_true_2 by eauto. cbn [negb]. by rewrite Hm. }
  rewrite E. cbn [snd]. split; [done|]. split.
  - unfold get_summary_by_url, _load_index at 1. cbn [index_file].
    by rewrite lookup_delete_eq.
  - intros other Hne. unfold _load_index at 1. cbn [index_file].
    by rewrite lookup_delete_ne.
Qed.

(** X12.  Deleting by something that is neither a URL of the index nor
    the id of a record returns [False] and leaves the store as it was. *)
Theorem delete_summary_unknown (st : Store PyFloat) (url_or_id : str) :
  _load_index st !! url_or_id = None ->
  (forall u m, _load_index st !! u = Some m -> id m <> url_or_id) ->
  delete_summary st url_or_id = (false, st).
Proof.
  intros Hkey Hid. unfold SummaryStorageById.delete_summary. rewrite is_key_spec.
  rewrite bool_decide_eq_false_2 by (rewrite Hkey; by intros [? ?]). cbn [negb].
  destruct (target_url_of (_load_index st) url_or_id) as [u|] eqn:E; [|done].
  apply target_url_of_Some in E as (_ & m & Hm & Hi). by destruct (Hid u m).
Qed.

(** X13.  Deleting by an id that is not a URL of the index, when the
    index has no empty URL and some record has the id, removes one record
    with that id, under a non-empty URL, and the file of the id. *)
Theorem delete_summary_by_id (st : Store PyFloat) (summary_id : str) u0 m0 :
  _load_index st !! summary_id = None ->
  _load_index st !! [] = None ->
  _load_index st !! u0 = Some m0 -> id m0 = summary_id ->
  exists u m,
    u <> [] /\ _load_index st !! u = Some m /\ id m = summary_id
    /\ delete_summary st summary_id
       = (true, {| index_file := Some (delete u (_load_index st));
                   files := delete (_get_summary_path summary_id) (files st) |}).
Proof.
  intros Hkey Hempty Hm0 Hid0.
  destruct (find_id_is_Some _ _ _ _ Hm0 Hid0) as (u & m & Ef).
  pose proof (find_id_Some _ _ _ _ Ef) as [Hm Hid].
  assert (u <> []) as Hu by (intros ->; congruence).
  exists u, m. split; [done|]. split; [done|]. split; [done|].
  unfold SummaryStorageById.delete_summary. rewrite is_key_spec.
  rewrite bool_decide_eq_false_2 by (rewrite Hkey; by intros [? ?]). cbn [negb].
  unfold SummaryStorageById.target_url_of. rewrite Ef.
  destruct u as [|c r]; [done|]. cbn [truthy]. by rewrite Hm, Hid.
Qed.

End StorageMore.

Section StorageRuns.
Import Py SummaryStorage SummaryStorageById.

Local Abbreviation x_url := (lit "http://x").
Local Abbreviation h := (toy_host scenario_D).
Local Abbreviation dangling_id := (lit "0123abcd-1700000000-beef").
Local Abbreviation dangling_record :=
  {| id := dangling_id; url := x_url; timestamp := lit "2024-01-01 00:00:00";
     timestamp_unix := 1700000000; preview := lit "gone" |}.

Lemma map_to_list_spec {V} (index : gmap str V) u m :
  (u, m) ∈ map_to_list index <-> index !! u = Some m.
Proof. apply elem_of_map_to_list. Qed.


Lemma save_summary_frame_witness :
  let r := save_summary h dangling_store toy_world (lit "http://y") (lit "first") in
  _load_index r.1.2 !! x_url = _load_index dangling_store !! x_url
  /\ ((forall m, _load_index dangling_store !! x_url = Some m -> id m <> r.1.1) ->
      get_summary_by_url r.1.2 x_url = get_summary_by_url dangling_store x_url).
Proof.
  intros r.
  apply (save_summary_frame h dangling_store toy_world (lit "http://y") (lit "first")
           r.1.1 r.1.2 r.2 x_url).
  - by rewrite <- !surjective_pairing.
  - discriminate.
Defined.



Lemma delete_summary_by_url_witness :
  delete_summary map_to_list dangling_store x_url
  = (true, {| index_file := Some (delete x_url (_load_index dangling_store));
              files := delete (_get_summary_path dangling_id) (files dangling_store) |})
  /\ get_summary_by_url (delete_summary map_to_list dangling_store x_url).2 x_url = None
  /\ (forall other, other <> x_url ->
        _load_index (delete_summary map_to_list dangling_store x_url).2 !! other
        = _load_index dangling_store !! other).
Proof.
  apply (delete_summary_by_url map_to_list (@map_to_list_spec _)
           dangling_store x_url dangling_record).
  reflexivity.
Defined.

Lemma delete_summary_unknown_witness :
  delete_summary map_to_list dangling_store (lit "nope") = (false, dangling_store).
Proof.
  apply (delete_summary_unknown map_to_list (@map_to_list_spec _)
           dangling_store (lit "nope")).
  - reflexivity.
  - intros u m Hm. cbn in Hm. apply lookup_singleton_Some in Hm as [_ <-].
    discriminate.
Defined.

Lemma delete_summary_by_id_witness :
  exists u m,
    u <> [] /\ _load_index dangling_store !! u = Some m /\ id m = dangling_id
    /\ delete_summary map_to_list dangling_store dangling_id
       = (true, {| index_file := Some (delete u (_load_index dangling_store));
                   files := delete (_get_summary_path dangling_id)
                                   (files dangling_store) |}).
Proof.
  apply (delete_summary_by_id map_to_list (@map_to_list_spec _)
           dangling_store dangling_id x_url dangling_record); reflexivity.
Defined.

End StorageRuns.

(** ** The page cache and the orchestrator, further *)

Section OrchestratorMore.
Import Py SummaryStorage WebFetcherAgent SummarizationAgentTeam.
Context {World PyFloat : Type} (host : Host World PyFloat).
Variable tk : Tokenizer.
Variable CHUNK_SIZE : Z.

Local Abbreviation start_summarization := (start_summarization host tk CHUNK_SIZE).


(** X15.  An empty page sticks.  When the fetcher returns the empty text
    for a URL with no summary and no page on disk, the run raises the
    fetch error, and so does every later run for the URL, in any world
    and without asking the fetcher: the empty page is served from disk. *)
Theorem empty_page_is_sticky team w url w1 :
  get_summary_by_url (storage team) url = None ->
  content_files (web_fetcher team) !! _get_content_path host url = None ->
  fetch host w url = (OK [], w1) ->
  exists team1,
    start_summarization team w url
    = (Raise (fetch_error url), team1, w1, [FetchWebpage url])
    /\ storage team1 = storage team
    /\ forall w2, start_summarization team1 w2 url
                  = (Raise (fetch_error url), team1, w2, [FetchWebpage url]).
Proof.
  intros Hget Hnew Hfetch.
  unfold SummarizationAgentTeam.start_summarization, fetch_webpage.
  rewrite Hget, Hnew, Hfetch. eexists. split; [done|]. split; [done|].
  intros w2. cbn [storage web_fetcher]. rewrite Hget.
  unfold _update_content_index. cbn [content_files].
  by rewrite lookup_insert_eq.
Qed.

Lemma summarize_each_single w chunk :
  summarize_each host w [chunk]
  = ([match fst (generate_summary host w chunk) with
      | OK summary_obj => to_text summary_obj
      | Raise _ => error_marker 1
      end], snd (generate_summary host w chunk)).
Proof.
  unfold summarize_each, enumerate, summarize_step. cbn.
  by destruct (generate_summary host w chunk) as [[obj|e] w'].
Qed.



End OrchestratorMore.

Section OrchestratorMoreRuns.
Import Py SummaryStorage WebFetcherAgent SummarizationAgentTeam.

Local Abbreviation x_url := (lit "http://x").


Lemma empty_page_is_sticky_witness :
  exists team1,
    start_summarization (toy_host empty_page) codepoint_tokenizer 3
      empty_team toy_world x_url
    = (Raise (fetch_error x_url), team1, tick toy_world, [FetchWebpage x_url])
    /\ storage team1 = storage empty_team
    /\ forall w2, start_summarization (toy_host empty_page) codepoint_tokenizer 3
                    team1 w2 x_url
                  = (Raise (fetch_error x_url), team1, w2, [FetchWebpage x_url]).
Proof.
  apply (empty_page_is_sticky (toy_host empty_page) codepoint_tokenizer 3
           empty_team toy_world x_url (tick toy_world)); reflexivity.
Defined.



End OrchestratorMoreRuns.

(** ** Retry loops *)

Section FetchRetry.
Import Py WebpageContentFetcher.
Context {World : Type} (net : Network World).
Variable max_retries retry_wait : Z.

Local Abbreviation attempts := (attempts net retry_wait).
Local Abbreviation fetch := (fetch net max_retries retry_wait).

Lemma attempts_outcome url n : forall last_error w k html_content last_error' w' k',
  attempts url n last_error w k = (html_content, last_error', w', k') ->
  match html_content with
  | Some html =>
      (k < k' <= k + n)%nat /\ exists w0, session_get net w0 url = (inr html, w')
  | None =>
      k' = (k + n)%nat
      /\ (n = O -> last_error' = last_error /\ w' = w)
      /\ ((0 < n)%nat -> exists e0 w0 w1,
            session_get net w0 url = (inl e0, w1)
            /\ last_error' = Some (last_error_of e0)
            /\ w' = sleep net w1 retry_wait)
  end.
Proof.
  induction n as [|n IH]; intros last_error w k html_content last_error' w' k'.
  - cbn [WebpageContentFetcher.attempts]. intros [= <- <- <- <-].
    split; [lia|]. split; [done | lia].
  - cbn [WebpageContentFetcher.attempts].
    destruct (session_get net w url) as [[e|html] wa] eqn:Hget.
    + intros H. specialize (IH _ _ _ _ _ _ _ H).
      destruct html_content as [html|].
      * destruct IH as [Hk Hw]. split; [lia | done].
      * destruct IH as (Hk & H0 & Hpos). split; [lia|]. split; [lia|]. intros _.
        destruct n as [|n]; [|apply Hpos; lia].
        destruct H0 as [-> ->]; [done|]. by exists e, w, wa.
    + intros [= <- <- <- <-]. split; [lia|]. by exists w.
Qed.


End FetchRetry.

Section GenerateRetry.
Import Py DeepSeekModelClient.
Context {World Params Response : Type}.
Variable _generate_sync : World -> Params -> (str + Response) * World.
Variable _generate_stream : World -> Params -> (str + Response) * World.
Variable sleep : World -> Z -> World.
Variable max_retries retry_wait : Z.

Local Abbreviation call := (fun (stream : bool) w params =>
  if stream then _generate_stream w params else _generate_sync w params).
Local Abbreviation generate_loop :=
  (generate_loop _generate_sync _generate_stream sleep max_retries retry_wait).
Local Abbreviation generate :=
  (generate _generate_sync _generate_stream sleep max_retries retry_wait).

Lemma generate_loop_outcome stream params n : forall attempt w k res w' k',
  attempt + Z.of_nat n = max_retries ->
  generate_loop stream params n attempt w k = (res, w', k') ->
  match res with
  | OK (Some response) =>
      (k < k' <= k + n)%nat
      /\ exists w0, call stream w0 params = (inr response, w')
  | OK None => n = O /\ k' = k /\ w' = w
  | Raise e =>
      k' = (k + n)%nat /\ (0 < n)%nat
      /\ exists msg w0, call stream w0 params = (inl msg, w') /\ e = api_failure msg
  end.
Proof.
  induction n as [|n IH]; intros attempt w k res w' k' Hinv.
  - cbn [DeepSeekModelClient.generate_loop]. by intros [= <- <- <-].
  - cbn [DeepSeekModelClient.generate_loop].
    destruct (if stream then _generate_stream w params else _generate_sync w params)
      as [[msg|response] wa] eqn:Hcall.
    + destruct (Z.ltb_spec attempt (max_retries - 1)) as [Hmore|Hlast].
      * intros H. specialize (IH (attempt + 1) _ _ _ _ _ ltac:(lia) H).
        destruct res as [[response|]|e].
        -- destruct IH as [Hk Hw]. split; [lia | done].
        -- lia.
        -- destruct IH as (Hk & Hn & Hw). split; [lia|]. split; [lia | done].
      * intros [= <- <- <-]. split; [lia|]. split; [lia|]. by exists msg, w.
    + intros [= <- <- <-]. split; [lia|]. by exists w.
Qed.


End GenerateRetry.

Section RetryRuns.
Import Py WebpageContentFetcher DeepSeekModelClient.


(** Two attempts are not enough: the timeout of the second is raised. *)
Lemma fetch_gives_up_run :
  fetch flaky_network 2 2 O (lit "http://x")
  = (inl (last_error_of (Timeout (lit "read timed out"))), 2%nat, 2%nat).
Proof. reflexivity. Qed.


End RetryRuns.

(** ** [utils/text_utils.py] *)

Section TextUtilsFacts.
Import Py TextUtils.

Local Abbreviation non_ws := Spec.non_ws.

Lemma strip_strip s : strip (strip s) = strip s.
Proof. apply strip_fixed; apply strip_ends. Qed.

(** X20.  [normalize_whitespace] is stripping after the collapse of the
    whitespace runs: its second substitution never finds a match.  Its
    result has single spaces as only whitespace, and normalizing it again
    changes nothing. *)
Theorem normalize_whitespace_collapses (text : str) :
  normalize_whitespace text = strip (Re.sub_ws text)
  /\ Spec.single_spaced (normalize_whitespace text)
  /\ normalize_whitespace (normalize_whitespace text) = normalize_whitespace text.
Proof.
  assert (Spec.single_spaced (Re.sub_ws text)) as Hs
    by apply (sub_ws_go_single_spaced _ false).
  assert (normalize_whitespace text = strip (Re.sub_ws text)) as E.
  { unfold normalize_whitespace, Re.sub_blank_lines.
    by rewrite sub_blank_lines_go_no_NL by by apply single_spaced_no_NL. }
  assert (Spec.single_spaced (strip (Re.sub_ws text))) as Hs'.
  { destruct (strip_infix (Re.sub_ws text)) as (pre & suf & H).
    apply (single_spaced_infix pre _ suf). by rewrite <- H. }
  rewrite E. split; [done|]. split; [done|].
  unfold normalize_whitespace, Re.sub_blank_lines, Re.sub_ws.
  rewrite (sub_ws_go_fixed (strip _)) by done.
  rewrite sub_blank_lines_go_no_NL by by apply single_spaced_no_NL.
  apply strip_strip.
Qed.

Lemma non_ws_lstrip s : non_ws (lstrip s) = non_ws s.
Proof.
  induction s as [|c r IH]; [done|]. cbn [lstrip].
  destruct (isspace c) eqn:Hc; [|done]. by rewrite non_ws_space.
Qed.

Lemma non_ws_rev s : non_ws (rev s) = rev (non_ws s).
Proof. apply List.filter_rev. Qed.

Lemma non_ws_strip s : non_ws (strip s) = non_ws s.
Proof.
  unfold strip, rstrip.
  by rewrite non_ws_rev, non_ws_lstrip, non_ws_rev, rev_involutive, non_ws_lstrip.
Qed.

Lemma startswith_prefix p : forall s, startswith s p = true -> exists r, s = p ++ r.
Proof.
  induction p as [|a p IH]; intros s; [by exists s|].
  destruct s as [|b s]; [done|]. cbn [startswith].
  intros [Hab Hs]%andb_prop. apply N.eqb_eq in Hab as ->.
  destruct (IH s Hs) as [r ->]. by exists r.
Qed.

(** [split] on a separator made of whitespace drops whitespace only. *)
Lemma split_go_non_ws_sep sep s :
  sep <> [] -> forallb isspace sep = true ->
  forall skip cur,
    forallb isspace (take skip s) = true ->
    non_ws (concat (split_go sep skip cur s)) = non_ws (rev cur ++ s).
Proof.
  intros Hsep Hws. induction s as [|c r IH]; intros skip cur Hskip.
  - simpl. by rewrite !app_nil_r.
  - destruct skip as [|k].
    + cbn [split_go]. destruct (startswith (c :: r) sep) eqn:E.
      * apply startswith_prefix in E as [r' E].
        destruct sep as [|x sep']; [done|]. injection E as -> ->.
        cbn [forallb] in Hws. apply andb_prop in Hws as [Hx Hsep'].
        cbn [concat]. rewrite non_ws_app, IH.
        -- cbn [rev app]. rewrite (non_ws_app (rev cur)).
           by rewrite (non_ws_space x).
        -- cbn [length Nat.pred]. by rewrite take_app_length.
      * rewrite IH by done. apply non_ws_snoc_cons.
    + cbn [split_go]. cbn [take forallb] in Hskip.
      apply andb_prop in Hskip as [Hc Hr].
      rewrite IH by done. by rewrite !non_ws_app, (non_ws_space c).
Qed.

Lemma sub_breaks_go_non_ws s : forall after_break,
  non_ws (sub_breaks_go after_break s) = non_ws s.
Proof.
  induction s as [|c r IH]; intros after_break; [done|].
  cbn [sub_breaks_go].
  destruct (after_break && isspace c) eqn:Hskip.
  - apply andb_prop in Hskip as [_ Hc]. by rewrite IH, non_ws_space.
  - destruct (sentence_break c).
    + change (c :: NL :: sub_breaks_go true r)
        with ([c] ++ NL :: sub_breaks_go true r).
      rewrite non_ws_app, (non_ws_space NL), IH by done.
      by rewrite <- non_ws_app.
    + change (c :: sub_breaks_go false r) with ([c] ++ sub_breaks_go false r).
      rewrite non_ws_app, IH. by rewrite <- non_ws_app.
Qed.

Lemma startswith_single c r : startswith (c :: r) [NL] = (NL =? c)%N.
Proof. cbn [startswith]. destruct r; apply andb_true_r. Qed.

Lemma split_go_NL_pieces s : forall cur piece,
  NL ∉ rev cur -> piece ∈ split_go [NL] O cur s -> NL ∉ piece.
Proof.
  induction s as [|c r IH]; intros cur piece Hcur.
  - simpl. by intros ->%list_elem_of_singleton.
  - cbn [split_go length Nat.pred]. rewrite startswith_single.
    destruct (N.eqb_spec NL c) as [<-|Hc].
    + intros [->|Hin]%elem_of_cons; [done|]. apply (IH []); [|done].
      simpl. apply not_elem_of_nil.
    + apply IH. cbn [rev]. rewrite elem_of_app, list_elem_of_singleton. tauto.
Qed.

Lemma strip_sublist s c : c ∈ strip s -> c ∈ s.
Proof.
  destruct (strip_infix s) as (pre & suf & H). intros Hc. rewrite H.
  rewrite !elem_of_app. tauto.
Qed.

Lemma non_ws_map_strip l : non_ws (concat (map strip l)) = non_ws (concat l).
Proof.
  induction l as [|x l IH]; [done|]. cbn [map concat].
  by rewrite !non_ws_app, IH, non_ws_strip.
Qed.

Lemma non_ws_filter_strip l :
  non_ws (concat (List.filter (fun s => truthy (strip s)) l)) = non_ws (concat l).
Proof.
  induction l as [|x l IH]; [done|]. cbn [List.filter concat].
  destruct (truthy (strip x)) eqn:Hx; cbn [concat].
  - by rewrite !non_ws_app, IH.
  - rewrite non_ws_app, IH. destruct (strip x) eqn:Hs; [|done].
    by rewrite (strip_nil x Hs).
Qed.

Lemma split_text_by_sentences_non_ws text :
  non_ws (concat (split_text_by_sentences text)) = non_ws text.
Proof.
  unfold split_text_by_sentences, split.
  rewrite non_ws_map_strip, non_ws_filter_strip.
  rewrite (split_go_non_ws_sep [NL]) by done.
  apply sub_breaks_go_non_ws.
Qed.

Lemma split_text_by_sentences_stripped text :
  Forall (fun sentence => sentence <> [] /\ strip sentence = sentence /\ NL ∉ sentence)
         (split_text_by_sentences text).
Proof.
  unfold split_text_by_sentences. apply Forall_forall.
  intros sentence [piece [<- Hpiece]]%list_elem_of_In%in_map_iff.
  apply filter_In in Hpiece as [Hin Htruthy].
  split; [by destruct (strip piece) | split; [apply strip_strip|]].
  intros Hnl%strip_sublist. revert Hnl.
  apply (split_go_NL_pieces (sub_breaks_go false text) []).
  - simpl. apply not_elem_of_nil.
  - by apply list_elem_of_In.
Qed.

(** X21.  Every sentence that [split_text_by_sentences] returns is not
    empty, has no whitespace at its ends and no newline; and the
    sentences, put end to end, hold the non-whitespace content of the
    text, in order. *)
Theorem split_text_by_sentences_clean (text : str) :
  Forall (fun sentence => sentence <> [] /\ strip sentence = sentence /\ NL ∉ sentence)
         (split_text_by_sentences text)
  /\ Spec.coverage (split_text_by_sentences text) text.
Proof.
  split; [apply split_text_by_sentences_stripped|].
  apply split_text_by_sentences_non_ws.
Qed.

End TextUtilsFacts.

Section SplitByParagraphs.
Import Py TextUtils.
Variable estimate_tokens : str -> nat.
Variable max_tokens_per_chunk : Z.

Local Abbreviation non_ws := Spec.non_ws.
Local Abbreviation taken := Spec.taken.
Local Abbreviation not_blank := Spec.not_blank.
Local Abbreviation NLNL := ContentProcessorAgent.NLNL.
Local Abbreviation sentence_body := (sentence_body estimate_tokens max_tokens_per_chunk).
Local Abbreviation paragraph_body := (paragraph_body estimate_tokens max_tokens_per_chunk).

Lemma join_non_ws_sep sep parts :
  non_ws sep = [] -> non_ws (join sep parts) = non_ws (concat parts).
Proof.
  intros Hsep. induction parts as [|p [|q r] IH]; [done | by simpl; rewrite app_nil_r |].
  change (join sep (p :: q :: r)) with (p ++ sep ++ join sep (q :: r)).
  change (concat (p :: q :: r)) with (p ++ concat (q :: r)).
  by rewrite !non_ws_app, IH, Hsep.
Qed.

Lemma non_ws_concat_snoc (l : list str) x :
  non_ws (concat (l ++ [x])) = non_ws (concat l) ++ non_ws x.
Proof. rewrite concat_app. cbn [concat]. by rewrite app_nil_r, non_ws_app. Qed.

Lemma sentence_body_taken a sentence :
  non_ws (Spec.taken3 (sentence_body a sentence))
  = non_ws (Spec.taken3 a) ++ non_ws sentence.
Proof.
  destruct a as [[chunks temp_chunk] temp_tokens].
  unfold TextUtils.sentence_body, Spec.taken3.
  destruct (max_tokens_per_chunk <? _); [destruct temp_chunk as [|t r]|]; cbn [fst snd].
  - cbn [app concat]. by rewrite !app_nil_r, non_ws_app.
  - cbn [app]. rewrite !non_ws_app, non_ws_concat_snoc, (join_non_ws_sep [SP]) by done.
    cbn [concat]. by rewrite app_nil_r.
  - by rewrite !non_ws_app, non_ws_concat_snoc, app_assoc.
Qed.

Lemma sentences_taken sentences : forall a,
  non_ws (Spec.taken3 (fold_left sentence_body sentences a))
  = non_ws (Spec.taken3 a) ++ non_ws (concat sentences).
Proof.
  induction sentences as [|x r IH]; intros a; cbn [fold_left concat].
  - by rewrite app_nil_r.
  - by rewrite IH, sentence_body_taken, non_ws_app, app_assoc.
Qed.

Lemma paragraph_body_taken a para :
  non_ws (taken (paragraph_body a para)) = non_ws (taken a) ++ non_ws para.
Proof.
  unfold TextUtils.paragraph_body.
  destruct (max_tokens_per_chunk <? Z.of_nat (estimate_tokens para)).
  - set (start := match ContentProcessorAgent.current_chunk a with
                  | [] => _ | _ :: _ => _ end).
    assert (non_ws (concat start.1.1) = non_ws (taken a) /\ start.1.2 = []) as [Hs Hc].
    { subst start. unfold Spec.taken.
      destruct (ContentProcessorAgent.current_chunk a) as [|p r]; cbn [fst snd].
      - by rewrite app_nil_r.
      - by rewrite non_ws_concat_snoc, non_ws_app, (join_non_ws_sep NLNL). }
    destruct start as [[chunks current_chunk] current_chunk_tokens].
    cbn [fst snd] in Hs, Hc. subst current_chunk.
    pose proof (sentences_taken (split_text_by_sentences para) (chunks, [], O)) as H.
    destruct (fold_left sentence_body (split_text_by_sentences para) (chunks, [], O))
      as [[chunks' temp_chunk] temp_tokens].
    unfold Spec.taken3 in H. cbn [fst snd concat] in H.
    rewrite app_nil_r, split_text_by_sentences_non_ws, Hs in H.
    rewrite <- H. unfold Spec.taken.
    cbn [ContentProcessorAgent.chunks ContentProcessorAgent.current_chunk concat].
    rewrite app_nil_r. destruct temp_chunk as [|t r].
    + by rewrite app_nil_r.
    + by rewrite non_ws_concat_snoc, non_ws_app, (join_non_ws_sep [SP]).
  - destruct (max_tokens_per_chunk <? _).
    + apply taken_flushed.
    + apply taken_appended.
Qed.

Lemma paragraphs_taken paras : forall a,
  non_ws (taken (fold_left paragraph_body paras a))
  = non_ws (taken a) ++ non_ws (concat paras).
Proof.
  induction paras as [|x r IH]; intros a; cbn [fold_left concat].
  - by rewrite app_nil_r.
  - by rewrite IH, paragraph_body_taken, non_ws_app, app_assoc.
Qed.

(** The chunks are never blank. *)

Lemma not_blank_stripped s : strip s <> [] -> not_blank s.
Proof.
  unfold Spec.not_blank. rewrite <- non_ws_strip.
  destruct (strip_ends s) as [Hl _].
  destruct (strip s) as [|c r] eqn:E; [done|]. intros _.
  unfold Spec.non_ws. cbn [List.filter].
  by rewrite (lstrip_head _ _ _ Hl).
Qed.

Lemma not_blank_join sep p r :
  non_ws sep = [] -> not_blank p -> not_blank (join sep (p :: r)).
Proof.
  unfold Spec.not_blank. intros Hsep Hp. rewrite join_non_ws_sep by done.
  cbn [concat]. rewrite non_ws_app. by destruct (non_ws p).
Qed.

Lemma sentence_body_ok a sentence :
  Spec.chunks_ok a.1.1 a.1.2 -> not_blank sentence ->
  Spec.chunks_ok (sentence_body a sentence).1.1 (sentence_body a sentence).1.2.
Proof.
  destruct a as [[chunks temp_chunk] temp_tokens]. cbn [fst snd].
  intros [Hc Ht] Hs. unfold TextUtils.sentence_body.
  assert (Forall not_blank [sentence]) as Hs' by (by apply Forall_singleton).
  destruct (max_tokens_per_chunk <? _); [destruct temp_chunk as [|t r]|]; cbn [fst snd].
  - by split.
  - split; [|done]. apply Forall_app. split; [done|].
    apply Forall_singleton, not_blank_join; [done|].
    by apply Forall_cons in Ht as [? _].
  - split; [done|]. by apply Forall_app.
Qed.

Lemma sentences_ok sentences : forall a,
  Spec.chunks_ok a.1.1 a.1.2 -> Forall not_blank sentences ->
  Spec.chunks_ok (fold_left sentence_body sentences a).1.1
            (fold_left sentence_body sentences a).1.2.
Proof.
  induction sentences as [|x r IH]; intros a Ha Hs; [done|].
  apply Forall_cons in Hs as [Hx Hr]. cbn [fold_left].
  apply IH; [|done]. by apply sentence_body_ok.
Qed.

Lemma sentences_not_blank para : Forall not_blank (split_text_by_sentences para).
Proof.
  eapply Forall_impl; [apply split_text_by_sentences_stripped|]. intros s (Hne & Hs & _).
  apply not_blank_stripped. by rewrite Hs.
Qed.

Lemma paragraphs_not_blank text :
  Forall not_blank (ContentProcessorAgent.paragraphs text).
Proof.
  unfold ContentProcessorAgent.paragraphs. apply Forall_forall.
  intros para [_ Hp]%list_elem_of_In%filter_In.
  apply not_blank_stripped. by destruct (strip para).
Qed.

(** The invariant of the loop over the paragraphs: nothing appended or
    waiting is blank, and nothing waits while the count is not zero. *)
Lemma paragraph_body_ok a para :
  Spec.chunks_ok (ContentProcessorAgent.chunks a) (ContentProcessorAgent.current_chunk a) ->
  (ContentProcessorAgent.current_chunk a = [] -> ContentProcessorAgent.current_length a = O) ->
  not_blank para ->
  Spec.chunks_ok (ContentProcessorAgent.chunks (paragraph_body a para))
                 (ContentProcessorAgent.current_chunk (paragraph_body a para))
  /\ (ContentProcessorAgent.current_chunk (paragraph_body a para) = [] ->
      ContentProcessorAgent.current_length (paragraph_body a para) = O).
Proof.
  intros [Hc Hp] Hzero Hpara. unfold TextUtils.paragraph_body.
  destruct (Z.ltb_spec max_tokens_per_chunk (Z.of_nat (estimate_tokens para)))
    as [Hbig|Hfit].
  - set (start := match ContentProcessorAgent.current_chunk a with
                  | [] => _ | _ :: _ => _ end).
    assert (Forall not_blank start.1.1 /\ start.1.2 = [] /\ start.2 = O)
      as (Hs & Hcur & Htok).
    { subst start. destruct (ContentProcessorAgent.current_chunk a) as [|p r] eqn:E;
        cbn [fst snd].
      - by rewrite Hzero.
      - split; [|done]. apply Forall_app. split; [done|].
        apply Forall_singleton, not_blank_join; [done|].
        by apply Forall_cons in Hp as [? _]. }
    destruct start as [[chunks current_chunk] current_chunk_tokens].
    cbn [fst snd] in Hs, Hcur, Htok. subst current_chunk current_chunk_tokens.
    pose proof (sentences_ok (split_text_by_sentences para) (chunks, [], O)
                  (conj Hs (Forall_nil_2 _)) (sentences_not_blank para)) as [Hc' Ht'].
    destruct (fold_left sentence_body (split_text_by_sentences para) (chunks, [], O))
      as [[chunks' temp_chunk] temp_tokens].
    cbn [fst snd] in Hc', Ht'.
    cbn [ContentProcessorAgent.chunks ContentProcessorAgent.current_chunk
         ContentProcessorAgent.current_length].
    split; [|done]. split; [|done]. destruct temp_chunk as [|t r]; [done|].
    apply Forall_app. split; [done|].
    apply Forall_singleton, not_blank_join; [done|].
    by apply Forall_cons in Ht' as [? _].
  - destruct (Z.ltb_spec max_tokens_per_chunk
                (Z.of_nat (ContentProcessorAgent.current_length a + estimate_tokens para)))
      as [Hfull|Hroom];
      cbn [ContentProcessorAgent.chunks ContentProcessorAgent.current_chunk
           ContentProcessorAgent.current_length].
    + split; [|done]. split; [|by apply Forall_singleton].
      apply Forall_app. split; [done|]. apply Forall_singleton.
      destruct (ContentProcessorAgent.current_chunk a) as [|p r].
      * rewrite Hzero in Hfull by done. lia.
      * apply not_blank_join; [done|]. by apply Forall_cons in Hp as [? _].
    + split.
      * split; [done|]. apply Forall_app. split; [done|]. by apply Forall_singleton.
      * intros E. by destruct (ContentProcessorAgent.current_chunk a).
Qed.

Lemma paragraphs_ok paras : forall a,
  Spec.chunks_ok (ContentProcessorAgent.chunks a) (ContentProcessorAgent.current_chunk a) ->
  (ContentProcessorAgent.current_chunk a = [] -> ContentProcessorAgent.current_length a = O) ->
  Forall not_blank paras ->
  Spec.chunks_ok (ContentProcessorAgent.chunks (fold_left paragraph_body paras a))
                 (ContentProcessorAgent.current_chunk (fold_left paragraph_body paras a)).
Proof.
  induction paras as [|x r IH]; intros a Ha Hzero Hps; [done|].
  apply Forall_cons in Hps as [Hx Hr]. cbn [fold_left].
  destruct (paragraph_body_ok a x Ha Hzero Hx) as [Ha' Hzero'].
  by apply IH.
Qed.

(** X22.  For every estimate and every budget, the chunks that
    [split_text_by_paragraphs] returns hold, put end to end, the
    non-whitespace content of the text in its order, and none of them is
    blank. *)
Theorem split_text_by_paragraphs_covers (text : str) :
  Spec.coverage (split_text_by_paragraphs estimate_tokens max_tokens_per_chunk text) text
  /\ Forall not_blank (split_text_by_paragraphs estimate_tokens max_tokens_per_chunk text).
Proof.
  unfold split_text_by_paragraphs, Spec.coverage. split.
  - rewrite flush_non_ws, paragraphs_taken. cbn. apply paragraphs_non_ws.
  - set (a0 := {| ContentProcessorAgent.chunks := [];
                  ContentProcessorAgent.current_chunk := [];
                  ContentProcessorAgent.current_length := O |}).
    destruct (paragraphs_ok (ContentProcessorAgent.paragraphs text) a0) as [Hc Hp].
    + by split.
    + done.
    + apply paragraphs_not_blank.
    + unfold ContentProcessorAgent.flush.
      destruct (ContentProcessorAgent.current_chunk _) as [|p r]; [done|].
      apply Forall_app. split; [done|].
      apply Forall_singleton, not_blank_join; [done|].
      by apply Forall_cons in Hp as [? _].
Qed.

End SplitByParagraphs.

Section SplitByTokens.
Import Py TextUtils.
Variable estimate_tokens : str -> nat.
Variable max_tokens_per_chunk : Z.

Lemma slice_to_window (toks : list N) i :
  0 < max_tokens_per_chunk ->
  slice_to toks i (Z.min (Z.of_nat i + max_tokens_per_chunk) (Z.of_nat (length toks)))
  = take (Z.to_nat max_tokens_per_chunk) (drop i toks).
Proof.
  intros Hmax. unfold slice_to.
  destruct (Z.ltb_spec (Z.min (Z.of_nat i + max_tokens_per_chunk)
                              (Z.of_nat (length toks))) 0); [lia|].
  rewrite Z.min_l by lia.
  destruct (Z.le_gt_cases (Z.of_nat i + max_tokens_per_chunk) (Z.of_nat (length toks))).
  - rewrite Z.min_l by lia. f_equal. lia.
  - rewrite Z.min_r by lia.
    rewrite !take_ge; [done | rewrite length_drop; lia | rewrite length_drop; lia].
Qed.

(** X23.  With a tokenizer and [0 <= overlap_tokens < max_tokens_per_chunk],
    [split_text_by_tokens] returns the decodings of the windows of
    [max_tokens_per_chunk] tokens that start every
    [max_tokens_per_chunk - overlap_tokens] tokens, and every token of the
    text is in the window that starts at or before it. *)
Theorem split_text_by_tokens_windows (tk : Tokenizer) (text : str) (overlap_tokens : Z) :
  0 <= overlap_tokens < max_tokens_per_chunk ->
  split_text_by_tokens estimate_tokens (Some tk) max_tokens_per_chunk text overlap_tokens
  = map (fun j => decode tk (take (Z.to_nat max_tokens_per_chunk)
                               (drop (j * Z.to_nat (max_tokens_per_chunk - overlap_tokens))%nat
                                     (encode tk text))))
        (seq 0 ((length (encode tk text)
                 + Z.to_nat (max_tokens_per_chunk - overlap_tokens) - 1)
                / Z.to_nat (max_tokens_per_chunk - overlap_tokens))%nat)
  /\ forall (p : nat) tok, encode tk text !! p = Some tok ->
       (p / Z.to_nat (max_tokens_per_chunk - overlap_tokens)
        < (length (encode tk text)
           + Z.to_nat (max_tokens_per_chunk - overlap_tokens) - 1)
          / Z.to_nat (max_tokens_per_chunk - overlap_tokens))%nat
       /\ take (Z.to_nat max_tokens_per_chunk)
               (drop (p / Z.to_nat (max_tokens_per_chunk - overlap_tokens)
                      * Z.to_nat (max_tokens_per_chunk - overlap_tokens))%nat
                     (encode tk text))
          !! (p mod Z.to_nat (max_tokens_per_chunk - overlap_tokens))%nat
          = Some tok.
Proof.
  intros Hreg. set (toks := encode tk text).
  set (step := Z.to_nat (max_tokens_per_chunk - overlap_tokens)).
  assert (0 < step)%nat as Hstep by lia.
  assert (step <= Z.to_nat max_tokens_per_chunk)%nat as Hle by lia.
  split.
  - unfold split_text_by_tokens, range. fold toks.
    destruct (Z.eqb_spec (max_tokens_per_chunk - overlap_tokens) 0); [lia|].
    destruct (Z.ltb_spec (max_tokens_per_chunk - overlap_tokens) 0); [lia|].
    fold step. rewrite map_map. apply map_ext. intros j.
    by rewrite slice_to_window by lia.
  - intros p tok Hp. pose proof (lookup_lt_Some _ _ _ Hp) as Hlt.
    pose proof (Nat.div_mod_eq p step) as Hdm.
    pose proof (Nat.mod_upper_bound p step ltac:(lia)) as Hmod.
    split.
    + apply Nat.Div0.div_lt_upper_bound.
      assert (step * ((length toks + step - 1) / step) + step > length toks + step - 1)%nat;
        [|nia].
      pose proof (Nat.div_mod_eq (length toks + step - 1) step).
      pose proof (Nat.mod_upper_bound (length toks + step - 1) step ltac:(lia)). lia.
    + rewrite lookup_take_lt by lia. rewrite lookup_drop.
      replace (p / step * step + p mod step)%nat with p by lia. done.
Qed.

(** X24.  Without a tokenizer, or with an overlap equal to the budget
    (the step of [range] is then zero and its [ValueError] is caught),
    [split_text_by_tokens] gives what [split_text_by_paragraphs] gives;
    with an overlap above the budget it gives no chunk at all. *)
Theorem split_text_by_tokens_fallback (text : str) :
  (forall overlap_tokens,
     split_text_by_tokens estimate_tokens None max_tokens_per_chunk text overlap_tokens
     = split_text_by_paragraphs estimate_tokens max_tokens_per_chunk text)
  /\ (forall tk,
        split_text_by_tokens estimate_tokens (Some tk) max_tokens_per_chunk text
          max_tokens_per_chunk
        = split_text_by_paragraphs estimate_tokens max_tokens_per_chunk text)
  /\ (forall tk overlap_tokens, max_tokens_per_chunk < overlap_tokens ->
        split_text_by_tokens estimate_tokens (Some tk) max_tokens_per_chunk text
          overlap_tokens = []).
Proof.
  split; [done|]. split.
  - intros tk. unfold split_text_by_tokens, range.
    by rewrite Z.sub_diag.
  - intros tk overlap_tokens Hover. unfold split_text_by_tokens, range.
    destruct (Z.eqb_spec (max_tokens_per_chunk - overlap_tokens) 0); [lia|].
    by destruct (Z.ltb_spec (max_tokens_per_chunk - overlap_tokens) 0); [|lia].
Qed.

End SplitByTokens.

Section TextUtilsRuns.
Import Py TextUtils.

(** Seven tokens, windows of three overlapping by one: they start at
    0, 2, 4 and 6. *)
Lemma split_text_by_tokens_windows_witness :
  0 <= 1 < 3
  /\ split_text_by_tokens (@length N) (Some codepoint_tokenizer) 3 (lit "abcdefg") 1
     = [lit "abc"; lit "cde"; lit "efg"; lit "g"]
  /\ forall (p : nat) tok, lit "abcdefg" !! p = Some tok ->
       (p / 2 < 4)%nat
       /\ take 3 (drop (p / 2 * 2)%nat (lit "abcdefg")) !! (p mod 2)%nat = Some tok.
Proof.
  split; [lia|].
  destruct (split_text_by_tokens_windows (@length N) 3 codepoint_tokenizer
              (lit "abcdefg") 1 ltac:(lia)) as [Hwindows Hcover].
  split; [rewrite Hwindows; reflexivity | exact Hcover].
Defined.

(** Sentences of the split by sentences, and chunks of the split by
    paragraphs with one token per code point and a budget of eight. *)
Example split_text_by_sentences_runs :
  split_text_by_sentences (lit "a. b;c" ++ [NL] ++ lit " d")
  = [lit "a."; lit "b;"; lit "c"; lit "d"].
Proof. reflexivity. Qed.

Example split_text_by_paragraphs_runs :
  split_text_by_paragraphs (@length N) 8
    (lit "one" ++ [NL; NL] ++ lit "two" ++ [NL; NL] ++ lit "Hi there. All good? Yes."
     ++ [NL; NL] ++ lit "end")
  = [lit "one" ++ [NL; NL] ++ lit "two"; lit "Hi there."; lit "All good?";
     lit "Yes."; lit "end"].
Proof. reflexivity. Qed.

End TextUtilsRuns.
